(** * salt/client.py: the return-gathering engine of [LocalClient]

    A shallow embedding of [salt/client.py].  The module talks to four
    external collaborators: the publisher's request socket, the master
    event bus, the job cache directory on disk and the wall clock.  Each of
    them is embedded as a script of the answers it gives, one answer per
    call site of the source, in the order the source performs the calls.
    A function of the module is then a pure function from its arguments
    and its script to the trace of effects it performs (yields, prints,
    liveness probes) and to its outcome.  An outcome is a returned value,
    a raised exception, or [Pending] when the script ends while the code
    is still looping. *)

From Stdlib Require Import ZArith String Ascii List DecimalString Decimal Lia OrderedTypeEx.
From stdpp Require Import base gmap sets list strings sorting.

Local Open Scope string_scope.
Local Open Scope list_scope.
Local Open Scope Z_scope.

(** ** Python values *)

(** The values the client handles without looking inside them: positional
    arguments, return payloads and output hints.  The source observes them
    through [is None], truthiness and [str()] only; [VObj] stands for any
    other object, carried by its [str()] rendering and its truth value. *)
Inductive value : Type :=
| VNone
| VBool (b : bool)
| VInt (z : Z)
| VStr (s : string)
| VObj (rendering : string) (truth : bool).

Definition truthy (v : value) : bool :=
  match v with
  | VNone => false
  | VBool b => b
  | VInt z => negb (z =? 0)
  | VStr s => negb (String.eqb s "")
  | VObj _ t => t
  end.

Definition is_none (v : value) : bool :=
  match v with VNone => true | _ => false end.

Definition py_str (v : value) : string :=
  match v with
  | VNone => "None"
  | VBool true => "True"
  | VBool false => "False"
  | VInt z => NilZero.string_of_int (Z.to_int z)
  | VStr s => s
  | VObj r _ => r
  end.

(** [timeout or self.opts['timeout']]: [None] and [0] are both falsy. *)
Definition or_default (timeout : option Z) (dflt : Z) : Z :=
  match timeout with
  | Some t => if t =? 0 then dflt else t
  | None => dflt
  end.

(** [if timeout is None: timeout = self.opts['timeout']]. *)
Definition if_none (timeout : option Z) (dflt : Z) : Z :=
  match timeout with Some t => t | None => dflt end.

(** ** Exceptions, effects and outcomes *)

Inductive exn : Type :=
| EauthAuthenticationError (msg : string)
| SaltInvocationError (msg : string)
| KeyError
| ValueError
| TypeError
| AttributeError
| OSError
| SaltClientError (msg : string).

(** A target is a string expression, or a list of ids once a range
    expression has been expanded. *)
Inductive target : Type :=
| TStr (s : string)
| TList (l : list string).

(** One agent's entry in a streamed or full result: [{'ret': ..}] with an
    optional ['out']. *)
Record reply : Type := Reply { r_ret : value; r_out : option value }.

Inductive effect : Type :=
| Yield (m : gmap string reply)
| Print (line : string)
| Probe (jid : string) (tgt : target) (tgt_type : string).

Inductive outcome (A : Type) : Type :=
| Ok (a : A)
| Raise (e : exn)
| Pending.
Arguments Ok {A} a.
Arguments Raise {A} e.
Arguments Pending {A}.

(** A computation: the effects performed so far, in order, and how it
    ended. *)
Definition M (A : Type) : Type := (list effect * outcome A)%type.

Definition ret {A} (a : A) : M A := ([], Ok a).
Definition raise {A} (e : exn) : M A := ([], Raise e).
Definition pending {A} : M A := ([], Pending).
Definition emit (e : effect) : M unit := ([e], Ok tt).

Definition bind {A B} (c : M A) (k : A -> M B) : M B :=
  match c with
  | (tr, Ok a) => let '(tr', o) := k a in (tr ++ tr', o)
  | (tr, Raise e) => (tr, Raise e)
  | (tr, Pending) => (tr, Pending)
  end.

Notation "'let*' x ':=' c 'in' k" := (bind c (fun x => k))
  (at level 10, x pattern, c at level 100, k at level 200).
Notation "c ';;' k" := (bind c (fun _ => k))
  (at level 100, k at level 200, right associativity).

Definition effects {A} (c : M A) : list effect := fst c.
Definition result {A} (c : M A) : outcome A := snd c.

(** The mappings a computation yielded, in order. *)
Definition yields_of (tr : list effect) : list (gmap string reply) :=
  omap (fun e => match e with Yield m => Some m | _ => None end) tr.

Definition prints_of (tr : list effect) : list string :=
  omap (fun e => match e with Print s => Some s | _ => None end) tr.

Definition is_probe (e : effect) : bool :=
  match e with Probe _ _ _ => true | _ => false end.

Definition probes_of (tr : list effect) : list effect := List.filter is_probe tr.

(** The ids surfaced by a stream of yielded mappings, with multiplicity. *)
Definition surfaced_ids (ys : list (gmap string reply)) : list string :=
  ys ≫= (fun m => elements (dom m)).

(** ** Configuration *)

(** [self.opts]: the mapping built by [salt.config.client_config], which
    fills every key it knows with a default.  The keys the source reads
    with [opts[k]] are fields; the keys it reads with [opts.get(k)] are
    optional fields. *)
Record Opts : Type := {
  o_timeout : Z;
  o_sock_dir : string;
  o_cachedir : string;
  o_hash_type : string;
  o_user : option string;
  o_order_masters : bool;
  o_ext_job_cache : option string;
  o_nodegroups : gmap string string;
  o_conf_file : option string;
  o_interface : string;
  o_ret_port : string
}.

Record LocalClient : Type := {
  opts : Opts;
  salt_user : string;
  key : string
}.

(** ** condition_kwarg *)

(** [kwarg] is [None] or a dict, given by its items in iteration order. *)
Definition condition_kwarg (arg : list value) (kwarg : option (list (string * value)))
  : list value :=
  match kwarg with
  | Some items =>
      let kw_ := map (fun '(key, val) => VStr (key +:+ "=" +:+ py_str val)) items in
      arg ++ kw_
  | None => arg
  end.

(** ** The constructor *)

(** What the constructor reads from its surroundings.  The three calls
    that may raise on the way ([Serial], [check_parent_dirs], [MasterEvent])
    answer with the exception they raise, if any; [client_config] and
    [getpass.getuser] are taken to return. *)
Record Host : Type := {
  client_config : string -> Opts;        (* salt.config.client_config *)
  getuser : string;                      (* getpass.getuser() *)
  sudo_user : option string;             (* os.environ.get('SUDO_USER') *)
  read_file : string -> option string;   (* fopen + read; None: OSError/IOError *)
  (* salt.utils.verify.check_parent_dirs(keyfile, key_user); Some e: it raises e *)
  check_parent_dirs : string -> string -> option exn;
  new_serial : Opts -> option exn;       (* salt.payload.Serial(opts); Some e: raises *)
  new_event : string -> option exn       (* MasterEvent(sock_dir); Some e: raises *)
}.

(** [os.path.join] of two components. *)
Definition path_join (a b : string) : string :=
  if String.prefix "/" b then b
  else if String.eqb a "" then b
  else if String.eqb (substring (String.length a - 1) 1 a) "/" then a +:+ b
  else a +:+ "/" +:+ b.

(** [LocalClient.__get_user]. *)
Definition get_user (h : Host) (o : Opts) : outcome string :=
  let user := getuser h in
  if String.eqb user "root" || bool_decide (is_Some (sudo_user h)) then
    match sudo_user h with
    | Some su => Ok ("sudo_" +:+ su)
    | None => Ok user
    end
  else
    match o_user o with
    | None => Raise KeyError
    | Some u => if String.eqb user u then Ok user else Ok user
    end.

(** The user whose key [__read_master_key] reads, and the key file. *)
Definition key_user_of (o : Opts) (salt_user : string) : string :=
  let key_user := salt_user in
  let key_user :=
    if String.eqb key_user "root" then
      if negb (String.eqb (default "root" (o_user o)) "root")
      then default "root" (o_user o) else key_user
    else key_user in
  if String.prefix "sudo_" key_user then default "root" (o_user o) else key_user.

Definition keyfile_of (o : Opts) (key_user : string) : string :=
  path_join (o_cachedir o) ("." +:+ key_user +:+ "_key").

(** [LocalClient.__read_master_key].  [check_parent_dirs] is called
    before the [try]: what it raises is raised to the caller; a key file
    that cannot be read gives the empty key. *)
Definition read_master_key (h : Host) (o : Opts) (salt_user : string) : outcome string :=
  let key_user := key_user_of o salt_user in
  let keyfile := keyfile_of o key_user in
  match check_parent_dirs h keyfile key_user with
  | Some e => Raise e
  | None =>
      match read_file h keyfile with
      | Some k => Ok k
      | None => Ok ""
      end
  end.

(** [mopts] as the constructor sees it: [None], or a mapping; only its
    truth value is ever used. *)
Definition mopts_truthy (mopts : option (gmap string value)) : bool :=
  match mopts with
  | None => false
  | Some d => negb (bool_decide (d = ∅))
  end.

(** [LocalClient.__init__].  With a truthy [mopts] the first statement is
    the expression [self.opts - mopts]; reading the attribute [opts] of the
    fresh instance raises [AttributeError]. *)
Definition init (h : Host) (c_path : string) (mopts : option (gmap string value))
  : outcome LocalClient :=
  if mopts_truthy mopts then Raise AttributeError
  else
    let o := client_config h c_path in
    match new_serial h o with
    | Some e => Raise e
    | None =>
        match get_user h o with
        | Ok u =>
            match read_master_key h o u with
            | Ok k =>
                match new_event h (o_sock_dir o) with
                | Some e => Raise e
                | None => Ok {| opts := o; salt_user := u; key := k |}
                end
            | Raise e => Raise e
            | Pending => Pending
            end
        | Raise e => Raise e
        | Pending => Pending
        end
    end.

(** ** Publishing *)

(** The payload handed to [SREQ.send]. *)
Record payload : Type := {
  p_cmd : string;
  p_tgt : target;
  p_fun : string;
  p_arg : list value;
  p_key : string;
  p_tgt_type : string;
  p_ret : string;
  p_jid : string;
  p_kwargs : option (list (string * value));
  p_user : option string;
  p_to : option Z
}.

(** The world as [pub] sees it.  [sreq_send] answers [None] for a falsy
    reply and otherwise the ['jid'] and ['minions'] of the reply's load.
    The request is taken to answer: an exception raised inside [SREQ.send],
    a truthy reply without these keys, and a [Range] constructor that
    raises are not part of this world. *)
Record PubWorld : Type := {
  sock_exists : bool;                    (* os.path.exists(.../publish_pull.ipc) *)
  RANGE : bool;                          (* seco.range could be imported *)
  range_expand : target -> option (list string); (* None: RangeException *)
  range_error : string;                  (* the rendering of that exception *)
  nodegroup_comp : string -> gmap string string -> string;
  sreq_send : payload -> option (string * list string)
}.

(** The data [pub] returns, as a mapping restricted to the two keys the
    client reads.  The empty mapping has neither. *)
Record pub_dict : Type := PubDict {
  pd_jid : option string;
  pd_minions : option (list string)
}.

Definition empty_dict : pub_dict := PubDict None None.

Definition dict_truthy (d : pub_dict) : bool :=
  bool_decide (is_Some (pd_jid d)) || bool_decide (is_Some (pd_minions d)).

(** [pub] returns a mapping, or hands back the falsy reply ([None]). *)
Definition pub_data : Type := option pub_dict.

Definition pub_truthy (p : pub_data) : bool :=
  match p with Some d => dict_truthy d | None => false end.

Definition auth_err : string :=
  "Failed to authenticate, is this user permitted to execute commands?".

(** [LocalClient._check_pub_data]. *)
Definition check_pub_data (p : pub_data) : outcome pub_dict :=
  match p with
  | None => Raise (EauthAuthenticationError auth_err)
  | Some d =>
      if negb (dict_truthy d) then Raise (EauthAuthenticationError auth_err)
      else
        match pd_jid d with
        | None => Ok empty_dict
        | Some j => if String.eqb j "0" then Ok empty_dict else Ok d
        end
  end.

(** [LocalClient._convert_range_to_list]. *)
Definition convert_range_to_list (w : PubWorld) (tgt : target) : M (list string) :=
  match range_expand w tgt with
  | Some l => ret l
  | None => emit (Print ("Range server exception: " +:+ range_error w)) ;; ret []
  end.

(** [LocalClient.pub]. *)
Definition pub (self : LocalClient) (w : PubWorld)
    (tgt : target) (fn : string) (arg : list value) (expr_form : string)
    (ret_ : string) (jid : string) (timeout : Z) (kwargs : list (string * value))
  : M pub_data :=
  if negb (sock_exists w) then
    ret (Some (PubDict (Some "0") (Some [])))
  else
    let* (tgt, expr_form) :=
      (if String.eqb expr_form "nodegroup" then
         match tgt with
         | TList _ => raise TypeError
         | TStr g =>
             match o_nodegroups (opts self) !! g with
             | None =>
                 let conf_file := default "the master config file" (o_conf_file (opts self)) in
                 raise (SaltInvocationError
                          ("Node group " +:+ g +:+ " unavailable in " +:+ conf_file))
             | Some _ =>
                 ret (TStr (nodegroup_comp w g (o_nodegroups (opts self))), "compound")
             end
         end
       else ret (tgt, expr_form)) in
    let* (tgt, expr_form) :=
      (if String.eqb expr_form "range" && RANGE w then
         let* l := convert_range_to_list w tgt in ret (TList l, "list")
       else ret (tgt, expr_form)) in
    let ret_ :=
      match o_ext_job_cache (opts self) with
      | Some c =>
          if String.eqb c "" then ret_
          else if negb (String.eqb ret_ "") then ret_ +:+ "," +:+ c else c
      | None => ret_
      end in
    let payload_kwargs :=
      {| p_cmd := "publish"; p_tgt := tgt; p_fun := fn; p_arg := arg;
         p_key := key self; p_tgt_type := expr_form; p_ret := ret_; p_jid := jid;
         p_kwargs := match kwargs with [] => None | _ => Some kwargs end;
         p_user := if String.eqb (salt_user self) "" then None else Some (salt_user self);
         p_to := if o_order_masters (opts self) then Some timeout else None |} in
    match sreq_send w payload_kwargs with
    | None => ret None
    | Some (j, m) => ret (Some (PubDict (Some j) (Some m)))
    end.

(** The world as [run_job] sees it.  [prep_jid] is [None] when
    [salt.utils.prep_jid] (or the evaluation of its arguments) raises. *)
Record JobWorld : Type := {
  prep_jid : option string;
  pub_world : PubWorld
}.

(** [LocalClient.run_job]. *)
Definition run_job (self : LocalClient) (w : JobWorld)
    (tgt : target) (fn : string) (arg : list value) (expr_form : string)
    (ret_ : string) (timeout : option Z) (kwargs : list (string * value))
  : M pub_dict :=
  let jid := match prep_jid w with Some j => j | None => "" end in
  let* pub_data :=
    pub self (pub_world w) tgt fn arg expr_form ret_ jid
        (or_default timeout (o_timeout (opts self))) kwargs in
  ([], check_pub_data pub_data).

(** ** The expected set as the gatherers receive it *)

(** [minions] is whatever the caller passes: a set, a list (or tuple) of
    ids, or a single id as a string. *)
Inductive minions_arg : Type :=
| MSet (s : gset string)
| MList (l : list string)
| MStr (s : string).

Fixpoint chars (s : string) : list string :=
  match s with
  | EmptyString => []
  | String c s' => String c EmptyString :: chars s'
  end.

(** [len(minions)]. *)
Definition m_len (m : minions_arg) : nat :=
  match m with
  | MSet s => size s
  | MList l => length l
  | MStr s => String.length s
  end.

(** The elements met when [minions] is iterated, as in [set(minions)] and
    [found.intersection(minions)]. *)
Definition m_ids (m : minions_arg) : gset string :=
  match m with
  | MSet s => s
  | MList l => list_to_set l
  | MStr s => list_to_set (chars s)
  end.

(** The [isinstance] dispatch at the head of [get_iter_returns] and
    [get_cli_event_returns]. *)
Definition normalize (m : minions_arg) : gset string :=
  match m with
  | MSet s => s
  | MStr s => {[ s ]}
  | MList l => list_to_set l
  end.

(** [len(found.intersection(minions)) >= len(minions)]. *)
Definition all_returned (found : gset string) (ids : gset string) (len : nat) : bool :=
  bool_decide (len <= size (found ∩ ids))%nat.

(** ** [int(jid)] *)

Definition is_space (c : ascii) : bool :=
  let n := nat_of_ascii c in
  Nat.eqb n 32 || (Nat.leb 9 n && Nat.leb n 13).

Fixpoint lstrip (s : string) : string :=
  match s with
  | String c s' => if is_space c then lstrip s' else s
  | EmptyString => s
  end.

Definition strip (s : string) : string := String.rev (lstrip (String.rev (lstrip s))).

Definition digit_val (c : ascii) : option Z :=
  let n := nat_of_ascii c in
  if Nat.leb 48 n && Nat.leb n 57 then Some (Z.of_nat (n - 48)) else None.

Fixpoint digits (s : string) (acc : Z) : option Z :=
  match s with
  | EmptyString => Some acc
  | String c s' =>
      match digit_val c with
      | Some d => digits s' (10 * acc + d)
      | None => None
      end
  end.

Definition unsigned (s : string) : option Z :=
  match s with
  | EmptyString => None
  | _ => digits s 0
  end.

Definition py_int (s : string) : option Z :=
  match strip s with
  | String "-" s' => Z.opp <$> unsigned s'
  | String "+" s' => unsigned s'
  | s' => unsigned s'
  end.

(** ** Scanning the job directory *)

(** One attempt at [self.serial.load(salt.utils.fopen(path, 'r'))]: it
    raises, or decodes to a value ([VNone] for null). *)
Inductive read : Type :=
| ReadErr
| ReadVal (v : value).

(** What one listing of the job directory shows for one name: whether
    [return.p] is a file, what the successive reads of it give, whether
    [out.p] is a file and what reading it gives. *)
Record dir_entry : Type := {
  e_name : string;
  e_has_return : bool;
  e_reads : list read;
  e_has_out : bool;
  e_out : read
}.

(** The clock and the directory as one iteration of a scanning loop sees
    them, a field per call site: [os.listdir] ([None]: it raises
    [OSError]), [glob.glob(wtag)], and the readings of [time.time()]. *)
Record scan : Type := {
  s_listing : option (list dir_entry);
  s_now_start : Z;
  s_wtag : bool;
  s_now_guard : Z;
  s_now : Z;
  s_now_global : Z
}.

Record ReturnsWorld : Type := {
  rw_now : Z;                            (* int(time.time()) at entry *)
  rw_isdir : bool;                       (* os.path.isdir(jid_dir) *)
  rw_scans : list scan
}.

(** [while fn_ not in ret: try: ret[fn_] = load(..) except Exception: pass]:
    [None] when the reads run out with the loop still retrying. *)
Fixpoint load_return (reads : list read) : option value :=
  match reads with
  | [] => None
  | ReadErr :: reads' => load_return reads'
  | ReadVal v :: _ => Some v
  end.

(** The [for fn_ in os.listdir(jid_dir)] of [get_returns]. *)
Fixpoint scan_returns (es : list dir_entry) (ret_ : gmap string value)
  : option (gmap string value) :=
  match es with
  | [] => Some ret_
  | e :: es' =>
      if String.prefix "." (e_name e) then scan_returns es' ret_
      else if bool_decide (is_Some (ret_ !! e_name e)) then scan_returns es' ret_
      else if negb (e_has_return e) then scan_returns es' ret_
      else
        match load_return (e_reads e) with
        | None => None
        | Some v => scan_returns es' (<[e_name e := v]> ret_)
        end
  end.

Definition sentinel : Z := 999999999999.

(** The [while True] of [get_returns]. *)
Fixpoint get_returns_loop (minions : minions_arg) (timeout gstart : Z)
    (scans : list scan) (start : Z) (ret_ : gmap string value)
  : M (gmap string value) :=
  match scans with
  | [] => pending
  | s :: scans' =>
      match s_listing s with
      | None => raise OSError
      | Some es =>
          match scan_returns es ret_ with
          | None => pending
          | Some ret_ =>
              let start :=
                if negb (bool_decide (ret_ = ∅)) && (start =? sentinel)
                then s_now_start s else start in
              if s_wtag s && negb (s_now_guard s >? start + timeout + 1) then
                get_returns_loop minions timeout gstart scans' start ret_
              else if all_returned (dom ret_) (m_ids minions) (m_len minions) then
                ret ret_
              else if s_now s >? start + timeout then
                ret ret_
              else if (s_now_global s >? gstart + timeout) && bool_decide (ret_ = ∅) then
                ret ret_
              else
                get_returns_loop minions timeout gstart scans' start ret_
          end
      end
  end.

(** [LocalClient.get_returns]. *)
Definition get_returns (self : LocalClient) (w : ReturnsWorld)
    (jid : string) (minions : minions_arg) (timeout : option Z)
  : M (gmap string value) :=
  let timeout := if_none timeout (o_timeout (opts self)) in
  let start := sentinel in
  let gstart := rw_now w in
  match py_int jid with
  | None => raise ValueError
  | Some n =>
      if n =? 0 then ret ∅
      else if negb (rw_isdir w) then ret ∅
      else get_returns_loop minions timeout gstart (rw_scans w) start ∅
  end.

(** ** [cmd] and the liveness prober *)

Record CmdWorld : Type := {
  cw_job : JobWorld;
  cw_returns : ReturnsWorld
}.

(** [pub_data['jid']] and [pub_data['minions']]. *)
Definition get_jid (d : pub_dict) : M string :=
  match pd_jid d with Some j => ret j | None => raise KeyError end.

Definition get_minions (d : pub_dict) : M minions_arg :=
  match pd_minions d with Some m => ret (MList m) | None => raise KeyError end.

(** [LocalClient.cmd].  When the checked [pub_data] is falsy it is the
    empty mapping, and that is what is returned. *)
Definition cmd (self : LocalClient) (w : CmdWorld)
    (tgt : target) (fn : string) (arg : list value) (timeout : option Z)
    (expr_form : string) (ret_ : string) (kwarg : option (list (string * value)))
    (kwargs : list (string * value))
  : M (gmap string value) :=
  let arg := condition_kwarg arg kwarg in
  let* pub_data := run_job self (cw_job w) tgt fn arg expr_form ret_ timeout kwargs in
  if negb (dict_truthy pub_data) then ret ∅
  else
    let* jid := get_jid pub_data in
    let* minions := get_minions pub_data in
    get_returns self (cw_returns w) jid minions
      (Some (or_default timeout (o_timeout (opts self)))).

(** [LocalClient.gather_job_info]: a [cmd] of [saltutil.find_job] with a
    timeout of 2, run against its own part of the world.  The call is
    recorded in the trace as a [Probe] with its arguments. *)
Definition gather_job_info (self : LocalClient) (w : CmdWorld)
    (jid : string) (tgt : target) (tgt_type : string) (kwargs : list (string * value))
  : M (gmap string value) :=
  emit (Probe jid tgt tgt_type) ;;
  cmd self w tgt "saltutil.find_job" [VStr jid] (Some 2) tgt_type "" None kwargs.

(** ** The event-driven gatherers *)

(** What [self.event.get_event] hands back: a forwarder announcement
    ([{'syndic': ids}]) or one agent's return. *)
Inductive event : Type :=
| Syndic (ids : list string)
| Return (id : string) (ret_ : value) (out : option value).

(** The world as one iteration of an event loop sees it, a field per call
    site: [get_event] ([None]: the wait elapsed), [glob.glob(wtag)], the two
    readings of [time.time()], and the world of the liveness probe. *)
Record tick : Type := {
  t_event : option event;
  t_wtag : bool;
  t_now_guard : Z;
  t_now : Z;
  t_probe : CmdWorld
}.

Record EventWorld : Type := {
  ew_now : Z;                            (* int(time.time()) at entry *)
  ew_isdir : bool;                       (* os.path.isdir(jid_dir) *)
  ew_ticks : list tick
}.

(** The variables a gathering loop updates. *)
Record loop_state : Type := {
  found : gset string;
  minions : gset string;
  timeout : Z
}.

(** Why a loop was left: the [break] under "All minions have returned",
    or the [break] of the timeout branch. *)
Inductive reason : Type := Converged | Expired.

Inductive control : Type :=
| Continue (st : loop_state)
| Break (why : reason) (st : loop_state).

Definition nl : string := String (ascii_of_nat 10) EmptyString.

Fixpoint dashes (n : nat) : string :=
  match n with O => "" | S n' => String "-" (dashes n') end.

Fixpoint print_all (lines : list string) : M unit :=
  match lines with
  | [] => ret tt
  | l :: ls => emit (Print l) ;; print_all ls
  end.

(** The two header lines printed under [if verbose]. *)
Definition print_header (verbose : bool) (jid : string) : M unit :=
  if verbose then
    let msg := "Executing job with jid " +:+ jid in
    print_all [msg; dashes (String.length msg) +:+ nl]
  else ret tt.

(** The ids whose entry in [jinfo] is truthy.  Python fixes no order for
    the keys of a dict; the order in which the map lists its keys stands
    for the iteration order of [for id_ in jinfo]. *)
Definition running (jinfo : gmap string value) : list string :=
  (filter (fun kv => truthy kv.2 = true) (map_to_list jinfo)).*1.

(** [sorted(..)] on ids. *)
Definition str_le (a b : string) : Prop := String.leb a b = true.

#[global] Instance str_le_dec : RelDecision str_le.
Proof. intros a b. unfold str_le. apply _. Defined.

Definition sorted (l : list string) : list string := merge_sort str_le l.

Definition did_not_return : string := nl +:+ "The following minions did not return:".

Definition glob_or_pcre (tgt_type : string) : bool :=
  String.eqb tgt_type "glob" || String.eqb tgt_type "pcre".

(** One iteration of the [while True] shared, statement for statement, by
    [get_iter_returns] and [get_cli_event_returns]; the latter adds the
    prints under [if verbose]. *)
Definition event_step (self : LocalClient) (verbose : bool)
    (jid : string) (tgt : target) (tgt_type : string) (kwargs : list (string * value))
    (start inc_timeout : Z) (st : loop_state) (t : tick) : M control :=
  match t_event t with
  | Some (Syndic ids) =>
      ret (Continue {| found := found st; minions := minions st ∪ list_to_set ids;
                       timeout := timeout st |})
  | Some (Return id r o) =>
      let st := {| found := {[ id ]} ∪ found st; minions := minions st;
                   timeout := timeout st |} in
      emit (Yield {[ id := Reply r o ]}) ;;
      if all_returned (found st) (minions st) (size (minions st))
      then ret (Break Converged st)
      else ret (Continue st)
  | None =>
      if all_returned (found st) (minions st) (size (minions st)) then
        ret (Break Converged st)
      else if t_wtag t && negb (t_now_guard t >? start + timeout st + 1) then
        ret (Continue st)
      else if t_now t >? start + timeout st then
        let* jinfo := gather_job_info self (t_probe t) jid tgt tgt_type kwargs in
        (if verbose
         then print_all (map (fun id_ => "Execution is still running on " +:+ id_)
                             (running jinfo))
         else ret tt) ;;
        let more_time := negb (bool_decide (running jinfo = [])) in
        if more_time then
          ret (Continue {| found := found st; minions := minions st;
                           timeout := timeout st + inc_timeout |})
        else
          (if verbose && glob_or_pcre tgt_type
                      && negb (bool_decide (size (minions st) <= size (found st))%nat)
           then print_all (did_not_return :: sorted (elements (minions st ∖ found st)))
           else ret tt) ;;
          ret (Break Expired st)
      else
        ret (Continue st)
  end.

Fixpoint event_loop (self : LocalClient) (verbose : bool)
    (jid : string) (tgt : target) (tgt_type : string) (kwargs : list (string * value))
    (start inc_timeout : Z) (ticks : list tick) (st : loop_state)
  : M (reason * loop_state) :=
  match ticks with
  | [] => pending
  | t :: ticks' =>
      let* c := event_step self verbose jid tgt tgt_type kwargs start inc_timeout st t in
      match c with
      | Continue st' =>
          event_loop self verbose jid tgt tgt_type kwargs start inc_timeout ticks' st'
      | Break why st' => ret (why, st')
      end
  end.

(** [LocalClient.get_iter_returns].  The value handed back is the state
    of the loop when the generator is exhausted. *)
Definition get_iter_returns (self : LocalClient) (w : EventWorld)
    (jid : string) (minions_ : minions_arg) (timeout_ : option Z)
    (tgt : target) (tgt_type : string) (kwargs : list (string * value))
  : M (reason * loop_state) :=
  let minions_ := normalize minions_ in
  let timeout_ := if_none timeout_ (o_timeout (opts self)) in
  let inc_timeout := timeout_ in
  let start := ew_now w in
  (if negb (ew_isdir w) then emit (Yield ∅) else ret tt) ;;
  event_loop self false jid tgt tgt_type kwargs start inc_timeout (ew_ticks w)
    {| found := ∅; minions := minions_; timeout := timeout_ |}.

(** [LocalClient.get_cli_event_returns]. *)
Definition get_cli_event_returns (self : LocalClient) (w : EventWorld)
    (jid : string) (minions_ : minions_arg) (timeout_ : option Z)
    (tgt : target) (tgt_type : string) (verbose : bool) (kwargs : list (string * value))
  : M (reason * loop_state) :=
  let minions_ := normalize minions_ in
  print_header verbose jid ;;
  let timeout_ := if_none timeout_ (o_timeout (opts self)) in
  let inc_timeout := timeout_ in
  let start := ew_now w in
  (if negb (ew_isdir w) then emit (Yield ∅) else ret tt) ;;
  event_loop self verbose jid tgt tgt_type kwargs start inc_timeout (ew_ticks w)
    {| found := ∅; minions := minions_; timeout := timeout_ |}.

(** The [while True] of [get_cli_static_event_returns]: no forwarder
    announcements, no probe; the replies are gathered in [ret]. *)
Fixpoint static_loop (verbose : bool) (tgt_type : string) (start timeout_ : Z)
    (minions_ : gset string) (ticks : list tick)
    (found_ : gset string) (ret_ : gmap string reply)
  : M (gmap string reply) :=
  match ticks with
  | [] => pending
  | t :: ticks' =>
      match t_event t with
      | Some (Syndic _) => raise KeyError          (* raw['id'] *)
      | Some (Return id r o) =>
          let found_ := {[ id ]} ∪ found_ in
          let ret_ := <[ id := Reply r o ]> ret_ in
          if all_returned found_ minions_ (size minions_) then ret ret_
          else static_loop verbose tgt_type start timeout_ minions_ ticks' found_ ret_
      | None =>
          if all_returned found_ minions_ (size minions_) then ret ret_
          else if t_wtag t && negb (t_now_guard t >? start + timeout_ + 1) then
            static_loop verbose tgt_type start timeout_ minions_ ticks' found_ ret_
          else if t_now t >? start + timeout_ then
            (if verbose && glob_or_pcre tgt_type
                        && negb (bool_decide (size minions_ <= size found_)%nat)
             then print_all (did_not_return :: sorted (elements (minions_ ∖ found_)))
             else ret tt) ;;
            ret ret_
          else
            static_loop verbose tgt_type start timeout_ minions_ ticks' found_ ret_
      end
  end.

(** [LocalClient.get_cli_static_event_returns]. *)
Definition get_cli_static_event_returns (self : LocalClient) (w : EventWorld)
    (jid : string) (minions_ : minions_arg) (timeout_ : option Z)
    (tgt : target) (tgt_type : string) (verbose : bool)
  : M (gmap string reply) :=
  let minions_ := m_ids minions_ in
  print_header verbose jid ;;
  let timeout_ := if_none timeout_ (o_timeout (opts self)) in
  let start := ew_now w in
  if negb (ew_isdir w) then ret ∅
  else static_loop verbose tgt_type start timeout_ minions_ (ew_ticks w) ∅ ∅.

(** ** The directory-scanning CLI gatherer *)

(** One iteration of [get_cli_returns] as the world shows it. *)
Record cli_pass : Type := {
  cp_listing : option (list dir_entry);
  cp_wtag : bool;
  cp_now_guard : Z;
  cp_now : Z;
  cp_probe : CmdWorld
}.

Record CliWorld : Type := {
  cl_now : Z;
  cl_isdir : bool;
  cl_passes : list cli_pass
}.

(** [if os.path.isfile(outp): ret[fn_]['out'] = self.serial.load(..)]; when
    the read raises, the entry stays without ['out']. *)
Definition read_out (has_out : bool) (out : read) : option value :=
  if has_out then match out with ReadVal o => Some o | ReadErr => None end
  else None.

(** The inner [while fn_ not in ret] of [get_cli_returns], with its
    [check] flag, which the source sets at the head of every attempt.  The
    result is [None] when the reads run out with the loop still retrying,
    and otherwise the number of reads made and the mapping built. *)
Fixpoint load_entry (fn_ : string) (reads : list read) (has_out : bool) (out : read)
    (attempts : nat) : option (nat * gmap string reply) :=
  match reads with
  | [] => None
  | r :: reads' =>
      let check := true in
      match r with
      | ReadErr => load_entry fn_ reads' has_out out (S attempts)
      | ReadVal ret_data =>
          if is_none ret_data && check then
            (* check = False; continue *)
            load_entry fn_ reads' has_out out (S attempts)
          else
            Some (S attempts, {[ fn_ := Reply ret_data (read_out has_out out) ]})
      end
  end.

(** The [for fn_ in os.listdir(jid_dir)] of [get_cli_returns].  ([fret]
    is written and never read.) *)
Fixpoint cli_scan (es : list dir_entry) (found_ : gset string) : M (gset string) :=
  match es with
  | [] => ret found_
  | e :: es' =>
      if String.prefix "." (e_name e) then cli_scan es' found_
      else if bool_decide (e_name e ∈ found_) then cli_scan es' found_
      else if negb (e_has_return e) then cli_scan es' found_
      else
        match load_entry (e_name e) (e_reads e) (e_has_out e) (e_out e) 0 with
        | None => pending
        | Some (_, ret_) =>
            emit (Yield ret_) ;;
            cli_scan es' ({[ e_name e ]} ∪ found_)
        end
  end.

(** [minions.difference(found)]: [minions] must be a set. *)
Definition m_difference (m : minions_arg) (found_ : gset string) : M (gset string) :=
  match m with
  | MSet s => ret (s ∖ found_)
  | _ => raise AttributeError
  end.

Fixpoint cli_loop (self : LocalClient) (verbose : bool)
    (jid : string) (tgt : target) (tgt_type : string) (kwargs : list (string * value))
    (minions_ : minions_arg) (start inc_timeout : Z)
    (passes : list cli_pass) (found_ : gset string) (timeout_ : Z)
  : M (reason * loop_state) :=
  match passes with
  | [] => pending
  | p :: passes' =>
      match cp_listing p with
      | None => raise OSError
      | Some es =>
          let* found_ := cli_scan es found_ in
          let st := {| found := found_; minions := m_ids minions_; timeout := timeout_ |} in
          if cp_wtag p && negb (cp_now_guard p >? start + timeout_ + 1) then
            cli_loop self verbose jid tgt tgt_type kwargs minions_ start inc_timeout
              passes' found_ timeout_
          else if all_returned found_ (m_ids minions_) (m_len minions_) then
            ret (Converged, st)
          else if cp_now p >? start + timeout_ then
            let* jinfo := gather_job_info self (cp_probe p) jid tgt tgt_type kwargs in
            (if verbose
             then print_all (map (fun id_ => "Execution is still running on " +:+ id_)
                                 (running jinfo))
             else ret tt) ;;
            let more_time := negb (bool_decide (running jinfo = [])) in
            if more_time then
              cli_loop self verbose jid tgt tgt_type kwargs minions_ start inc_timeout
                passes' found_ (timeout_ + inc_timeout)
            else
              (if verbose && glob_or_pcre tgt_type
                          && all_returned found_ (m_ids minions_) (m_len minions_)
               then
                 emit (Print did_not_return) ;;
                 let* missing := m_difference minions_ found_ in
                 print_all (sorted (elements missing))
               else ret tt) ;;
              ret (Expired, st)
          else
            cli_loop self verbose jid tgt tgt_type kwargs minions_ start inc_timeout
              passes' found_ timeout_
      end
  end.

(** [LocalClient.get_cli_returns]. *)
Definition get_cli_returns (self : LocalClient) (w : CliWorld)
    (jid : string) (minions_ : minions_arg) (timeout_ : option Z)
    (tgt : target) (tgt_type : string) (verbose : bool) (kwargs : list (string * value))
  : M (reason * loop_state) :=
  print_header verbose jid ;;
  let timeout_ := if_none timeout_ (o_timeout (opts self)) in
  let inc_timeout := timeout_ in
  let start := cl_now w in
  (if negb (cl_isdir w) then emit (Yield ∅) else ret tt) ;;
  cli_loop self verbose jid tgt tgt_type kwargs minions_ start inc_timeout
    (cl_passes w) ∅ timeout_.

(** ** The aggregators *)

(** [if not fn_ret: continue]: the consumer drops the empty mappings. *)
Definition nonempty_yield (e : effect) : bool :=
  match e with
  | Yield m => negb (bool_decide (m = ∅))
  | _ => true
  end.

Definition skip_empty {A} (c : M A) : M A := (List.filter nonempty_yield (fst c), snd c).

Definition some_result {A} (c : M A) : M (option A) :=
  let* a := c in ret (Some a).

(** The world of a streaming aggregator. *)
Record StreamWorld : Type := {
  sw_job : JobWorld;
  sw_events : EventWorld
}.

(** [LocalClient.cmd_cli]. *)
Definition cmd_cli (self : LocalClient) (w : StreamWorld)
    (tgt : target) (fn : string) (arg : list value) (timeout_ : option Z)
    (expr_form : string) (ret_ : string) (verbose : bool)
    (kwarg : option (list (string * value))) (kwargs : list (string * value))
  : M (option (reason * loop_state)) :=
  let arg := condition_kwarg arg kwarg in
  let* pub_data := run_job self (sw_job w) tgt fn arg expr_form ret_ timeout_ kwargs in
  if negb (dict_truthy pub_data) then emit (Yield ∅) ;; ret None
  else
    let* jid := get_jid pub_data in
    let* minions_ := get_minions pub_data in
    some_result
      (skip_empty
         (get_cli_event_returns self (sw_events w) jid minions_
            (Some (or_default timeout_ (o_timeout (opts self))))
            tgt expr_form verbose kwargs)).

(** [LocalClient.cmd_iter]. *)
Definition cmd_iter (self : LocalClient) (w : StreamWorld)
    (tgt : target) (fn : string) (arg : list value) (timeout_ : option Z)
    (expr_form : string) (ret_ : string)
    (kwarg : option (list (string * value))) (kwargs : list (string * value))
  : M (option (reason * loop_state)) :=
  let arg := condition_kwarg arg kwarg in
  let* pub_data := run_job self (sw_job w) tgt fn arg expr_form ret_ timeout_ kwargs in
  if negb (dict_truthy pub_data) then emit (Yield ∅) ;; ret None
  else
    let* jid := get_jid pub_data in
    let* minions_ := get_minions pub_data in
    some_result
      (skip_empty
         (get_iter_returns self (sw_events w) jid minions_
            (Some (or_default timeout_ (o_timeout (opts self))))
            tgt expr_form kwargs)).


(** [LocalClient.cmd_full_return]. *)
Definition cmd_full_return (self : LocalClient) (w : StreamWorld)
    (tgt : target) (fn : string) (arg : list value) (timeout_ : option Z)
    (expr_form : string) (ret_ : string) (verbose : bool)
    (kwarg : option (list (string * value))) (kwargs : list (string * value))
  : M (gmap string reply) :=
  let arg := condition_kwarg arg kwarg in
  let* pub_data := run_job self (sw_job w) tgt fn arg expr_form ret_ timeout_ kwargs in
  if negb (dict_truthy pub_data) then ret ∅
  else
    let* jid := get_jid pub_data in
    let* minions_ := get_minions pub_data in
    get_cli_static_event_returns self (sw_events w) jid minions_ timeout_
      tgt expr_form verbose.

(** ** The function facade *)

(** A [FunctionWrapper] once constructed: [functions] is the set that
    [__load_functions] resolved. *)
Record FunctionWrapper : Type := {
  fw_minion : string;
  fw_local : LocalClient;
  fw_functions : gset string
}.

(** [for _key, _val in kwargs]: iterating a dict gives its keys, and each
    key is unpacked into two names. *)
Definition unpack2 (k : string) : M (string * string) :=
  match k with
  | String a (String b EmptyString) => ret (String a EmptyString, String b EmptyString)
  | _ => raise ValueError
  end.

Fixpoint append_kwargs (args : list value) (keys : list string) : M (list value) :=
  match keys with
  | [] => ret args
  | k :: keys' =>
      let* (_key, _val) := unpack2 k in
      append_kwargs (args ++ [VStr (_key +:+ "=" +:+ _val)]) keys'
  end.

(** The function [func] that [run_key] defines: [kwargs] is the mapping
    of named arguments in iteration order. *)
Definition func (self : FunctionWrapper) (key_ : string) (w : CmdWorld)
    (args : list value) (kwargs : list (string * value)) : M (gmap string value) :=
  let* args := append_kwargs args (kwargs.*1) in
  cmd (fw_local self) w (TStr (fw_minion self)) key_ args None "glob" "" None [].

(** What a Python call hands back here: [None], or a callable. *)
Inductive pyobj : Type :=
| PyNone
| PyCallable (f : CmdWorld -> list value -> list (string * value) -> M (gmap string value)).

(** [FunctionWrapper.run_key]: the body defines [func] and ends; there is
    no [return], so the call evaluates to [None]. *)
Definition run_key (self : FunctionWrapper) (key_ : string) : pyobj :=
  let _func := func self key_ in
  PyNone.

(** [FunctionWrapper.__missing__]. *)
Definition missing (self : FunctionWrapper) (key_ : string) : outcome pyobj :=
  if negb (bool_decide (key_ ∈ fw_functions self)) then Raise KeyError
  else Ok (run_key self key_).

(** ** Sample clients and worlds *)

Definition opts0 : Opts :=
  {| o_timeout := 5; o_sock_dir := "/var/run/salt/master";
     o_cachedir := "/var/cache/salt/master"; o_hash_type := "md5";
     o_user := Some "root"; o_order_masters := false; o_ext_job_cache := None;
     o_nodegroups := ∅; o_conf_file := Some "/etc/salt/master";
     o_interface := "127.0.0.1"; o_ret_port := "4506" |}.

Definition host0 : Host :=
  {| client_config := fun _ => opts0; getuser := "root"; sudo_user := None;
     read_file := fun _ => Some "secret";
     check_parent_dirs := fun _ _ => None; new_serial := fun _ => None;
     new_event := fun _ => None |}.

Definition client0 : LocalClient :=
  {| opts := opts0; salt_user := "root"; key := "secret" |}.

(** A publisher whose socket is missing, and one that answers every
    request with [reply]. *)
Definition pub_down : PubWorld :=
  {| sock_exists := false; RANGE := false; range_expand := fun _ => None;
     range_error := ""; nodegroup_comp := fun g _ => g; sreq_send := fun _ => None |}.

Definition pub_up (reply_ : option (string * list string)) : PubWorld :=
  {| sock_exists := true; RANGE := false; range_expand := fun _ => None;
     range_error := ""; nodegroup_comp := fun g _ => g; sreq_send := fun _ => reply_ |}.

Definition job_down : JobWorld := {| prep_jid := None; pub_world := pub_down |}.

Definition job_up (reply_ : option (string * list string)) : JobWorld :=
  {| prep_jid := None; pub_world := pub_up reply_ |}.

Definition no_returns : ReturnsWorld := {| rw_now := 0; rw_isdir := false; rw_scans := [] |}.

(** A probe that cannot publish: [gather_job_info] gives the empty mapping. *)
Definition probe_silent : CmdWorld := {| cw_job := job_down; cw_returns := no_returns |}.

Definition entry_of (name : string) (reads : list read) : dir_entry :=
  {| e_name := name; e_has_return := true; e_reads := reads;
     e_has_out := false; e_out := ReadErr |}.


(** A tick on which [get_event] delivers [e]. *)
Definition on_event (e : event) : tick :=
  {| t_event := Some e; t_wtag := false; t_now_guard := 0; t_now := 0;
     t_probe := probe_silent |}.

(** A tick on which the wait elapses at time [now], with or without a
    write tag, and with [probe] as the world of the liveness probe. *)
Definition idle (wtag : bool) (now : Z) (probe : CmdWorld) : tick :=
  {| t_event := None; t_wtag := wtag; t_now_guard := now; t_now := now;
     t_probe := probe |}.

(** The worlds used to exhibit the behaviours proved below. *)

Definition events_of (ticks : list tick) : EventWorld :=
  {| ew_now := 0; ew_isdir := true; ew_ticks := ticks |}.

Definition stream_of (reply_ : option (string * list string)) (ticks : list tick)
  : StreamWorld :=
  {| sw_job := job_up reply_; sw_events := events_of ticks |}.

(** Agent [a] returns, and the event bus then delivers its return once
    more before [b] returns. *)
Definition repeated_return : StreamWorld :=
  stream_of (Some ("1", ["a"; "b"]))
    [ on_event (Return "a" (VInt 1) None);
      on_event (Return "a" (VInt 1) None);
      on_event (Return "b" (VInt 3) None) ].



(** The master's reply to the publish request is empty. *)
Definition empty_reply : StreamWorld := stream_of None [].

Definition cmd_world (sw : StreamWorld) : CmdWorld :=
  {| cw_job := sw_job sw; cw_returns := no_returns |}.

(** The job directory is missing; the event bus still delivers [a]'s
    return and then falls silent. *)
Definition unknown_job_events : EventWorld :=
  {| ew_now := 0; ew_isdir := false;
     ew_ticks := [ on_event (Return "a" (VInt 1) None); idle false 6 probe_silent ] |}.

(** The job directory is missing, and listing it raises. *)
Definition unknown_job_dir : CliWorld :=
  {| cl_now := 0; cl_isdir := false;
     cl_passes := [ {| cp_listing := None; cp_wtag := false; cp_now_guard := 0;
                       cp_now := 0; cp_probe := probe_silent |} ] |}.

(** An unexpected agent [x] and the expected agent [a] return, [b] does
    not, and the wait elapses after the timeout. *)
Definition stray_return : EventWorld :=
  events_of
    [ on_event (Return "x" (VInt 0) None);
      on_event (Return "a" (VInt 1) None);
      idle false 6 probe_silent ].

Definition wrapper0 : FunctionWrapper :=
  {| fw_minion := "web1"; fw_local := client0;
     fw_functions := {[ "test.ping"; "cmd.run" ]} |}.

(** A world in which [web1] answers a [cmd] with [True]. *)
Definition web1_answers : CmdWorld :=
  {| cw_job := job_up (Some ("3", ["web1"]));
     cw_returns :=
       {| rw_now := 0; rw_isdir := true;
          rw_scans :=
            [ {| s_listing := Some [entry_of "web1" [ReadVal (VBool true)]];
                 s_now_start := 0; s_wtag := false; s_now_guard := 0;
                 s_now := 0; s_now_global := 0 |} ] |} |}.




(** A computation that yields nothing and ends by raising [e]. *)
Definition raises_silently {A} (e : exn) (c : M A) : Prop :=
  yields_of (fst c) = [] /\ snd c = Raise e.


(** A read that ends the retry loop of [get_cli_returns]: it decodes to
    data that is not null. *)
Definition good (r : read) : Prop :=
  match r with
  | ReadVal v => is_none v = false
  | ReadErr => False
  end.

(** [return.p] decodes to null twice, then to [1]. *)
Definition null_twice : list read :=
  [ReadVal VNone; ReadVal VNone; ReadVal (VInt 1)].


Definition is_print (e : effect) : bool :=
  match e with Print _ => true | _ => false end.

(** A trace that holds prints only: nothing is yielded, nothing probed. *)
Definition quiet (tr : list effect) : Prop := Forall (fun e => is_print e = true) tr.

(** The ids of the returns that the event bus delivers, in order. *)
Definition reply_ids (ticks : list tick) : list string :=
  omap (fun t => match t_event t with
                 | Some (Return id _ _) => Some id
                 | _ => None
                 end) ticks.




(** The ids a trace surfaces, one per key of each yielded mapping, in
    order and with multiplicity. *)
Definition ids_of (tr : list effect) : list string := surfaced_ids (yields_of tr).

(** The ids a trace surfaces are distinct, and none is in [found_]. *)
Definition fresh (found_ : gset string) (tr : list effect) : Prop :=
  NoDup (ids_of tr) /\ forall id, id ∈ ids_of tr -> id ∉ found_.


(** A trace in which the line that opens the list of missing agents is
    never printed. *)
Definition unlisted (tr : list effect) : Prop :=
  Forall (fun e => e <> Print did_not_return) tr.


(** ** The remaining gatherers *)

(** The inner [while fn_ not in ret] of [get_full_returns]: the decoded
    data is stored whatever it is, then [out.p] is read when it is a file. *)
Fixpoint load_full (reads : list read) (has_out : bool) (out : read) : option reply :=
  match reads with
  | [] => None
  | ReadErr :: reads' => load_full reads' has_out out
  | ReadVal ret_data :: _ => Some (Reply ret_data (read_out has_out out))
  end.

(** The [for fn_ in os.listdir(jid_dir)] of [get_full_returns]. *)
Fixpoint scan_full_returns (es : list dir_entry) (ret_ : gmap string reply)
  : option (gmap string reply) :=
  match es with
  | [] => Some ret_
  | e :: es' =>
      if String.prefix "." (e_name e) then scan_full_returns es' ret_
      else if bool_decide (is_Some (ret_ !! e_name e)) then scan_full_returns es' ret_
      else if negb (e_has_return e) then scan_full_returns es' ret_
      else
        match load_full (e_reads e) (e_has_out e) (e_out e) with
        | None => None
        | Some r => scan_full_returns es' (<[e_name e := r]> ret_)
        end
  end.

(** The [while True] of [get_full_returns]. *)
Fixpoint get_full_returns_loop (minions_ : minions_arg) (timeout_ gstart : Z)
    (scans : list scan) (start : Z) (ret_ : gmap string reply)
  : M (gmap string reply) :=
  match scans with
  | [] => pending
  | s :: scans' =>
      match s_listing s with
      | None => raise OSError
      | Some es =>
          match scan_full_returns es ret_ with
          | None => pending
          | Some ret_ =>
              let start :=
                if negb (bool_decide (ret_ = ∅)) && (start =? sentinel)
                then s_now_start s else start in
              if s_wtag s && negb (s_now_guard s >? start + timeout_ + 1) then
                get_full_returns_loop minions_ timeout_ gstart scans' start ret_
              else if all_returned (dom ret_) (m_ids minions_) (m_len minions_) then
                ret ret_
              else if s_now s >? start + timeout_ then
                ret ret_
              else if (s_now_global s >? gstart + timeout_) && bool_decide (ret_ = ∅) then
                ret ret_
              else
                get_full_returns_loop minions_ timeout_ gstart scans' start ret_
          end
      end
  end.

(** [LocalClient.get_full_returns]. *)
Definition get_full_returns (self : LocalClient) (w : ReturnsWorld)
    (jid : string) (minions_ : minions_arg) (timeout_ : option Z)
  : M (gmap string reply) :=
  let timeout_ := if_none timeout_ (o_timeout (opts self)) in
  let start := sentinel in
  let gstart := rw_now w in
  if negb (rw_isdir w) then ret ∅
  else get_full_returns_loop minions_ timeout_ gstart (rw_scans w) start ∅.

(** The [while True] of [get_event_iter_returns]; [get_event] is called
    without a jid, and only the [t_event] of a tick is looked at. *)
Fixpoint event_iter_loop (ticks : list tick) (found_ : gset string) : M (gset string) :=
  match ticks with
  | [] => pending
  | t :: ticks' =>
      match t_event t with
      | None => ret found_                      (* Timeout reached: break *)
      | Some (Syndic _) => raise KeyError       (* raw['id'] *)
      | Some (Return id r o) =>
          emit (Yield {[ id := Reply r o ]}) ;;
          event_iter_loop ticks' ({[ id ]} ∪ found_)
      end
  end.

(** [LocalClient.get_event_iter_returns].  The value handed back is
    [found] when the generator is exhausted. *)
Definition get_event_iter_returns (self : LocalClient) (w : EventWorld)
    (jid : string) (minions_ : minions_arg) (timeout_ : option Z)
  : M (gset string) :=
  let timeout_ := if_none timeout_ (o_timeout (opts self)) in
  (if negb (ew_isdir w) then emit (Yield ∅) else ret tt) ;;
  event_iter_loop (ew_ticks w) ∅.

(** ** Notions used to state further properties *)

Definition map_outcome {A B} (f : A -> B) (o : outcome A) : outcome B :=
  match o with
  | Ok a => Ok (f a)
  | Raise e => Raise e
  | Pending => Pending
  end.

(** The state a loop iteration hands on. *)
Definition state_of (c : control) : loop_state :=
  match c with Continue st => st | Break _ st => st end.

(** The names in a listing that are not hidden and have a [return.p]. *)
Definition committed (es : list dir_entry) : gset string :=
  list_to_set
    (map e_name
       (List.filter (fun e => negb (String.prefix "." (e_name e)) && e_has_return e) es)).

Definition committed_names (listings : list (option (list dir_entry))) : gset string :=
  ⋃ (map (fun l => match l with Some es => committed es | None => ∅ end) listings).

(** The tick delivers an agent's return. *)
Definition is_return (t : tick) : Prop :=
  match t_event t with Some (Return _ _ _) => True | _ => False end.

(** The tick is not a forwarder announcement. *)
Definition not_syndic (t : tick) : Prop :=
  match t_event t with Some (Syndic _) => False | _ => True end.

(** The mapping holds one agent's entry. *)
Definition one_agent (m : gmap string reply) : Prop := exists id r, m = {[ id := r ]}.

(** The latest time any pass would take as the start of the clock. *)
Definition start_bound (bound : Z) (scans : list scan) : Prop :=
  Forall (fun s => s_now_start s <= bound) scans.

(** A full result with every entry reduced to its ['ret']. *)
Definition rets (m : gmap string reply) : gmap string value := r_ret <$> m.

(** The read decodes, to whatever value. *)
Definition decodes (r : read) : Prop :=
  match r with ReadVal _ => True | ReadErr => False end.

(** A pass in which the directory can be listed and every [return.p]
    comes to decode. *)
Definition readable (s : scan) : Prop :=
  match s_listing s with
  | Some es => Forall (fun e => Exists decodes (e_reads e)) es
  | None => False
  end.






(** * Properties *)

(** ** The computation monad *)

Lemma bind_ret_l {A B} (a : A) (k : A -> M B) : bind (ret a) k = k a.
Proof. unfold bind, ret. destruct (k a) as [tr o]. reflexivity. Qed.

Lemma bind_raise_l {A B} (e : exn) (k : A -> M B) : bind (raise e) k = raise e.
Proof. reflexivity. Qed.

Lemma bind_pending_l {A B} (k : A -> M B) : bind pending k = pending.
Proof. reflexivity. Qed.

Lemma bind_ok {A B} tr (a : A) (k : A -> M B) :
  bind (tr, Ok a) k = (tr ++ fst (k a), snd (k a)).
Proof. unfold bind. destruct (k a). reflexivity. Qed.

Lemma effects_bind {A B} (c : M A) (k : A -> M B) :
  exists tr', fst (bind c k) = fst c ++ tr'.
Proof.
  destruct c as [tr [a | e | ]]; simpl.
  - destruct (k a) as [tr' o]. exists tr'. reflexivity.
  - exists []. rewrite app_nil_r. reflexivity.
  - exists []. rewrite app_nil_r. reflexivity.
Qed.

(** ** The constructor *)

(** C10, counterexample: an empty mapping is not [None], yet with
    [mopts = {}] the constructor takes the [else] branch and builds a usable
    client from the configuration file. *)
Lemma init_empty_mopts_builds_client :
  init host0 "/etc/salt" (Some ∅) = Ok client0.
Proof. vm_compute. reflexivity. Qed.

(** C10, amended: for every truthy [mopts] (a non-empty mapping) the
    constructor raises at [self.opts - mopts], before [self.opts] is bound:
    it hands back no client, whatever the host and the configuration path. *)
Theorem init_truthy_mopts_raises (h : Host) (c_path : string)
    (mopts : option (gmap string value)) :
  mopts_truthy mopts = true ->
  init h c_path mopts = Raise AttributeError.
Proof. intros H. unfold init. rewrite H. reflexivity. Qed.

Lemma init_truthy_mopts_raises_witness :
  mopts_truthy (Some {[ "timeout" := VInt 1 ]}) = true /\
  init host0 "/etc/salt" (Some {[ "timeout" := VInt 1 ]}) = Raise AttributeError.
Proof.
  split; [vm_compute; reflexivity | apply init_truthy_mopts_raises; vm_compute; reflexivity].
Defined.

(** ** The function facade *)

Lemma unpack2_long a b c rest :
  unpack2 (String a (String b (String c rest))) = raise ValueError.
Proof. reflexivity. Qed.

(** C9: looking up an absent name raises [KeyError]; looking up a present
    name evaluates [run_key], whose body defines [func] and returns nothing,
    so the lookup gives [None] and no callable.  The function [func]
    itself unpacks each named argument's key, not its key and value: a name
    of two characters [ab] becomes the token [a=b], any longer name raises
    [ValueError]; and it returns the whole mapping of [cmd]. *)
Theorem function_wrapper_lookup (self : FunctionWrapper) (key_ : string)
    (w : CmdWorld) (args : list value) (v : value) (a b c : ascii) (rest : string) :
  missing self key_ =
    (if bool_decide (key_ ∈ fw_functions self) then Ok PyNone else Raise KeyError)
  /\ func self key_ w args [(String a (String b (String c rest)), v)]
     = raise ValueError
  /\ func self key_ w args [(String a (String b EmptyString), v)]
     = cmd (fw_local self) w (TStr (fw_minion self)) key_
         (args ++ [VStr (String a (String "=" (String b EmptyString)))])
         None "glob" "" None []
  /\ func wrapper0 "test.ping" web1_answers [] []
     = ret {[ "web1" := VBool true ]}.
Proof.
  split; [| split; [| split]].
  - unfold missing. destruct (bool_decide (key_ ∈ fw_functions self)); reflexivity.
  - reflexivity.
  - unfold func. cbn [fmap list_fmap fst append_kwargs unpack2].
    rewrite !bind_ret_l. reflexivity.
  - vm_compute. reflexivity.
Qed.

(** ** Publishing *)




(** ** An unknown job *)

Lemma get_returns_unknown_job self w jid n minions_ timeout_ :
  py_int jid = Some n ->
  rw_isdir w = false ->
  get_returns self w jid minions_ timeout_ = ret ∅.
Proof.
  intros Hj Hd. unfold get_returns. rewrite Hj, Hd.
  destruct (n =? 0); reflexivity.
Qed.

Lemma static_unknown_job self w jid minions_ timeout_ tgt tgt_type :
  ew_isdir w = false ->
  get_cli_static_event_returns self w jid minions_ timeout_ tgt tgt_type false
  = ret ∅.
Proof.
  intros Hd. unfold get_cli_static_event_returns. rewrite Hd.
  cbn [print_header negb]. rewrite bind_ret_l. reflexivity.
Qed.

Lemma get_iter_returns_unknown_job self w jid minions_ timeout_ tgt tgt_type kwargs :
  ew_isdir w = false ->
  get_iter_returns self w jid minions_ timeout_ tgt tgt_type kwargs
  = (emit (Yield ∅) ;;
     event_loop self false jid tgt tgt_type kwargs (ew_now w)
       (if_none timeout_ (o_timeout (opts self))) (ew_ticks w)
       {| found := ∅; minions := normalize minions_;
          timeout := if_none timeout_ (o_timeout (opts self)) |}).
Proof. intros Hd. unfold get_iter_returns. rewrite Hd. reflexivity. Qed.

(** C4: with the job directory missing, the streaming gatherers yield the
    empty mapping and then fall through into their loop.
    [get_iter_returns] goes on to yield the return that the event bus
    delivers and runs until its timeout; [get_cli_returns] goes on to list
    the missing directory and raises [OSError]. *)
Theorem unknown_job_streams_fall_through :
  get_iter_returns client0 unknown_job_events "1" (MList ["a"; "b"]) None
      (TStr "*") "glob" []
    = ([Yield ∅; Yield {[ "a" := Reply (VInt 1) None ]}; Probe "1" (TStr "*") "glob"],
       Ok (Expired, {| found := {[ "a" ]}; minions := {[ "a"; "b" ]}; timeout := 5 |}))
  /\ get_cli_returns client0 unknown_job_dir "1" (MList ["a"; "b"]) None
        (TStr "*") "glob" false []
    = ([Yield ∅], Raise OSError).
Proof. split; vm_compute; reflexivity. Qed.

(** ** Reading [return.p] *)

Lemma load_entry_recorded fn_ reads has_out out n k m :
  load_entry fn_ reads has_out out n = Some (k, m) ->
  (n < k <= n + length reads)%nat /\ exists r, m = {[ fn_ := r ]}.
Proof.
  revert n. induction reads as [| r reads IH]; intros n H; [discriminate |].
  cbn [load_entry] in H. destruct r as [| v].
  - apply IH in H. cbn [length]. destruct H as [H1 H2]. split; [lia | exact H2].
  - destruct (is_none v && true) eqn:Hv.
    + apply IH in H. cbn [length]. destruct H as [H1 H2]. split; [lia | exact H2].
    + inversion H; subst. cbn [length]. split; [lia | eauto].
Qed.

Lemma load_entry_ends fn_ reads has_out out n :
  Exists good reads -> is_Some (load_entry fn_ reads has_out out n).
Proof.
  intros H. revert n. induction H as [r reads Hg | r reads _ IH]; intros n.
  - destruct r as [| v]; [destruct Hg |]. cbn [good] in Hg.
    cbn [load_entry]. rewrite Hg. cbn [andb]. eauto.
  - cbn [load_entry]. destruct r as [| v]; [apply IH |].
    destruct (is_none v && true); [apply IH | eauto].
Qed.

(** However many times [return.p] decodes to null, the loop reads it
    again: [check] is set afresh on every attempt. *)
Lemma load_entry_null_forever fn_ has_out out k n :
  load_entry fn_ (repeat (ReadVal VNone) k) has_out out n = None.
Proof. revert n. induction k as [| k IH]; intros n; [reflexivity | apply IH]. Qed.

Lemma cli_scan_ends es found_ :
  Forall (fun e => Exists good (e_reads e)) es ->
  exists found', snd (cli_scan es found_) = Ok found'.
Proof.
  intros H. revert found_. induction H as [| e es He _ IH]; intros found_.
  - eexists. reflexivity.
  - cbn [cli_scan].
    destruct (String.prefix "." (e_name e)); [apply IH |].
    destruct (bool_decide (e_name e ∈ found_)); [apply IH |].
    destruct (negb (e_has_return e)); [apply IH |].
    destruct (load_entry_ends (e_name e) _ (e_has_out e) (e_out e) 0%nat He)
      as [[k m] Hl].
    rewrite Hl. unfold emit. rewrite bind_ok. cbn [snd]. apply IH.
Qed.

(** [return.p] decodes to null twice and then to [1]: the read is made
    three times within the one pass, and the entry is recorded and yielded. *)
Lemma null_twice_is_read_thrice :
  load_entry "a" null_twice false ReadErr 0
    = Some (3%nat, {[ "a" := Reply (VInt 1) None ]})
  /\ cli_scan [entry_of "a" null_twice] ∅
    = ([Yield {[ "a" := Reply (VInt 1) None ]}], Ok {[ "a" ]}).
Proof. split; vm_compute; reflexivity. Qed.

(** ** The write-tag guard *)





(** ** Traces *)

Lemma fst_bind {A B} (c : M A) (k : A -> M B) :
  fst (bind c k) = fst c ++ match snd c with Ok a => fst (k a) | _ => [] end.
Proof.
  destruct c as [tr [a | e |]]; cbn [bind fst snd].
  - destruct (k a). reflexivity.
  - rewrite app_nil_r. reflexivity.
  - rewrite app_nil_r. reflexivity.
Qed.

Lemma snd_bind {A B} (c : M A) (k : A -> M B) :
  snd (bind c k) =
    match snd c with Ok a => snd (k a) | Raise e => Raise e | Pending => Pending end.
Proof.
  destruct c as [tr [a | e |]]; cbn [bind fst snd]; try reflexivity.
  destruct (k a). reflexivity.
Qed.

Lemma bind_inv {A B} (c : M A) (k : A -> M B) tr (b : B) :
  bind c k = (tr, Ok b) ->
  exists tr1 a tr2, c = (tr1, Ok a) /\ k a = (tr2, Ok b) /\ tr = tr1 ++ tr2.
Proof.
  destruct c as [tr1 [a | e |]]; cbn [bind]; try discriminate.
  destruct (k a) as [tr2 o] eqn:Hk. intros H. inversion H; subst.
  exists tr1, a, tr2. auto.
Qed.

Lemma yields_of_app tr1 tr2 : yields_of (tr1 ++ tr2) = yields_of tr1 ++ yields_of tr2.
Proof. apply omap_app. Qed.

Lemma probes_of_app tr1 tr2 : probes_of (tr1 ++ tr2) = probes_of tr1 ++ probes_of tr2.
Proof. apply List.filter_app. Qed.

Lemma prints_of_app tr1 tr2 : prints_of (tr1 ++ tr2) = prints_of tr1 ++ prints_of tr2.
Proof. apply omap_app. Qed.

Lemma surfaced_ids_app ys1 ys2 :
  surfaced_ids (ys1 ++ ys2) = surfaced_ids ys1 ++ surfaced_ids ys2.
Proof. apply bind_app. Qed.

Lemma quiet_app tr1 tr2 : quiet tr1 -> quiet tr2 -> quiet (tr1 ++ tr2).
Proof. apply Forall_app_2. Qed.

Lemma quiet_yields tr : quiet tr -> yields_of tr = [].
Proof.
  induction 1 as [| e tr He _ IH]; [reflexivity |].
  destruct e; try discriminate. exact IH.
Qed.

Lemma quiet_probes tr : quiet tr -> probes_of tr = [].
Proof.
  induction 1 as [| e tr He _ IH]; [reflexivity |].
  destruct e; try discriminate. exact IH.
Qed.

Lemma bind_quiet {A B} (c : M A) (k : A -> M B) :
  quiet (fst c) -> (forall a, quiet (fst (k a))) -> quiet (fst (bind c k)).
Proof.
  intros Hc Hk. rewrite fst_bind. apply quiet_app; [exact Hc |].
  destruct (snd c); [apply Hk | constructor | constructor].
Qed.

Lemma print_all_eq lines : print_all lines = (map Print lines, Ok tt).
Proof.
  induction lines as [| l ls IH]; [reflexivity |].
  cbn [print_all map]. rewrite IH. reflexivity.
Qed.

Lemma print_all_quiet lines : quiet (fst (print_all lines)).
Proof.
  rewrite print_all_eq. cbn [fst]. induction lines; constructor; auto.
Qed.

Lemma pub_quiet self w tgt fn arg expr_form ret_ jid t kwargs :
  quiet (fst (pub self w tgt fn arg expr_form ret_ jid t kwargs)).
Proof.
  unfold pub. destruct (negb (sock_exists w)); [constructor |].
  apply bind_quiet.
  - destruct (String.eqb expr_form "nodegroup"); [| constructor].
    destruct tgt; [| constructor].
    destruct (o_nodegroups (opts self) !! s); constructor.
  - intros [tgt' ef']. apply bind_quiet.
    + destruct (String.eqb ef' "range" && RANGE w); [| constructor].
      unfold convert_range_to_list. destruct (range_expand w tgt').
      * rewrite bind_ret_l. constructor.
      * repeat constructor.
    + intros [tgt'' ef'']. destruct (sreq_send w _) as [[j m] |]; constructor.
Qed.

Lemma run_job_quiet self w tgt fn arg expr_form ret_ t kwargs :
  quiet (fst (run_job self w tgt fn arg expr_form ret_ t kwargs)).
Proof.
  unfold run_job. apply bind_quiet; [apply pub_quiet | intros; constructor].
Qed.

Lemma get_returns_loop_silent minions_ T gstart scans start ret_ :
  fst (get_returns_loop minions_ T gstart scans start ret_) = [].
Proof.
  revert start ret_. induction scans as [| s scans IH]; intros start ret_; [reflexivity |].
  cbn [get_returns_loop]. destruct (s_listing s); [| reflexivity].
  destruct (scan_returns l ret_); [| reflexivity].
  repeat (match goal with |- context [if ?b then _ else _] => destruct b end);
    try reflexivity; apply IH.
Qed.

Lemma get_returns_silent self w jid minions_ t :
  fst (get_returns self w jid minions_ t) = [].
Proof.
  unfold get_returns. destruct (py_int jid); [| reflexivity].
  destruct (z =? 0); [reflexivity |]. destruct (negb (rw_isdir w)); [reflexivity |].
  apply get_returns_loop_silent.
Qed.

Lemma cmd_quiet self w tgt fn arg t expr_form ret_ kwarg kwargs :
  quiet (fst (cmd self w tgt fn arg t expr_form ret_ kwarg kwargs)).
Proof.
  unfold cmd. apply bind_quiet; [apply run_job_quiet |].
  intros d. destruct (negb (dict_truthy d)); [constructor |].
  apply bind_quiet.
  - unfold get_jid. destruct (pd_jid d); constructor.
  - intros j. apply bind_quiet.
    + unfold get_minions. destruct (pd_minions d); constructor.
    + intros m. rewrite get_returns_silent. constructor.
Qed.

Lemma gather_job_info_effects self w jid tgt tgt_type kwargs :
  exists tr, fst (gather_job_info self w jid tgt tgt_type kwargs)
             = Probe jid tgt tgt_type :: tr /\ quiet tr.
Proof.
  unfold gather_job_info, emit. rewrite bind_ok. cbn [fst app].
  eexists. split; [reflexivity | apply cmd_quiet].
Qed.

(** ** The empty reply *)








(** ** A return that decodes to null *)

(** C6, the code at the failing input: an entry whose [return.p] decodes
    to null at every read.  In [get_cli_returns] the flag [check] is set at
    the head of every attempt, so the re-read is taken every time: however
    many reads the pass is given, [n], the inner loop is still retrying when
    they are used up.  The scan pass does not come to an end, the gatherer
    yields nothing and never reaches its convergence or timeout check,
    whatever the clock shows.  The sibling loops of [get_returns] and
    [get_full_returns] store the null at the first read. *)
Theorem null_return_is_read_forever (self : LocalClient) (n : nat) (name : string)
    (has_out : bool) (out : read) (es : list dir_entry) (found_ : gset string) :
  String.prefix "." name = false ->
  name ∉ found_ ->
  let e := {| e_name := name; e_has_return := true;
              e_reads := repeat (ReadVal VNone) n;
              e_has_out := has_out; e_out := out |} in
  load_entry name (repeat (ReadVal VNone) n) has_out out 0 = None
  /\ cli_scan (e :: es) found_ = pending
  /\ (forall verbose jid tgt tgt_type kwargs minions_ start inc_timeout p passes T,
        cp_listing p = Some (e :: es) ->
        cli_loop self verbose jid tgt tgt_type kwargs minions_ start inc_timeout
          (p :: passes) found_ T = pending)
  /\ (forall w jid minions_ timeout_ tgt tgt_type verbose kwargs p passes,
        found_ = ∅ ->
        cl_isdir w = true -> cl_passes w = p :: passes ->
        cp_listing p = Some (e :: es) ->
        snd (get_cli_returns self w jid minions_ timeout_ tgt tgt_type verbose kwargs)
          = Pending
        /\ yields_of
             (fst (get_cli_returns self w jid minions_ timeout_ tgt tgt_type verbose
                     kwargs)) = [])
  /\ (forall rest,
        load_return (ReadVal VNone :: rest) = Some VNone
        /\ load_full (ReadVal VNone :: rest) has_out out
           = Some (Reply VNone (read_out has_out out))).
Proof.
  intros Hp Hn e.
  assert (Hscan : cli_scan (e :: es) found_ = pending).
  { cbn [cli_scan]. subst e. cbn [e_name e_has_return e_reads e_has_out e_out].
    rewrite Hp, bool_decide_eq_false_2 by exact Hn. cbn [negb].
    rewrite load_entry_null_forever. reflexivity. }
  assert (Hloop : forall verbose jid tgt tgt_type kwargs minions_ start inc_timeout
                         p passes T,
            cp_listing p = Some (e :: es) ->
            cli_loop self verbose jid tgt tgt_type kwargs minions_ start inc_timeout
              (p :: passes) found_ T = pending).
  { intros verbose jid tgt tgt_type kwargs minions_ start inc_timeout p passes T Hl.
    cbn [cli_loop]. rewrite Hl, Hscan. reflexivity. }
  split; [apply load_entry_null_forever |].
  split; [exact Hscan |].
  split; [exact Hloop |].
  split; [| intros rest; split; reflexivity].
  intros w jid minions_ timeout_ tgt tgt_type verbose kwargs p passes -> Hd Hps Hl.
  unfold get_cli_returns. rewrite Hd, Hps. cbn [negb]. rewrite bind_ret_l.
  rewrite (Hloop verbose jid tgt tgt_type kwargs minions_ (cl_now w)
             (if_none timeout_ (o_timeout (opts self))) p passes
             (if_none timeout_ (o_timeout (opts self))) Hl).
  unfold print_header. destruct verbose.
  - rewrite print_all_eq, bind_ok. cbn [fst snd pending]. split; reflexivity.
  - rewrite bind_ret_l. split; reflexivity.
Qed.

Lemma null_return_is_read_forever_witness :
  String.prefix "." "a" = false /\
  ("a" ∉ (∅ : gset string)) /\
  cli_scan [ {| e_name := "a"; e_has_return := true;
                e_reads := repeat (ReadVal VNone) 3;
                e_has_out := false; e_out := ReadErr |} ] ∅ = pending.
Proof.
  assert (Hn : "a" ∉ (∅ : gset string)) by apply not_elem_of_empty.
  split; [reflexivity | split; [exact Hn |]].
  destruct (null_return_is_read_forever client0 3 "a" false ReadErr [] ∅ eq_refl Hn)
    as (_ & Hscan & _).
  exact Hscan.
Defined.

(** ** Sorting the missing ids *)

Lemma str_le_iff a b : str_le a b <-> a = b \/ String_as_OT.lt a b.
Proof.
  unfold str_le, String.leb.
  pose proof (String_as_OT.cmp_eq a b) as He.
  pose proof (String_as_OT.cmp_lt a b) as Hl.
  unfold String_as_OT.cmp in He, Hl.
  destruct (a ?= b)%string; split; intros H; try reflexivity; try discriminate.
  - left. apply He. reflexivity.
  - right. apply Hl. reflexivity.
  - destruct H as [H | H]; [apply He in H | apply Hl in H]; discriminate.
Qed.

#[global] Instance str_le_trans : Transitive str_le.
Proof.
  intros a b c Hab Hbc. apply str_le_iff in Hab, Hbc. apply str_le_iff.
  destruct Hab as [-> | Hab]; [exact Hbc |].
  destruct Hbc as [<- | Hbc]; [right; exact Hab |].
  right. eapply String_as_OT.lt_trans; eassumption.
Qed.

#[global] Instance str_le_total : Total str_le.
Proof. intros a b. apply String.leb_total. Qed.


(** ** The list of agents that did not return *)





(** ** The timeout of the event-driven gatherers *)

Lemma cond_print (b : bool) (lines : list string) :
  exists tr, (if b then print_all lines else ret tt) = (tr, Ok tt) /\ quiet tr.
Proof.
  destruct b.
  - exists (map Print lines). split; [apply print_all_eq |].
    pose proof (print_all_quiet lines) as H. rewrite print_all_eq in H. exact H.
  - exists []. split; [reflexivity | constructor].
Qed.

(** An iteration either invokes no probe and leaves the timeout as it is,
    or invokes one probe with the arguments of the call, after which the
    timeout is extended by [inc_timeout] or the loop ends as [Expired]. *)
Lemma event_step_cases self verbose jid tgt tgt_type kwargs start inc st t tr c :
  event_step self verbose jid tgt tgt_type kwargs start inc st t = (tr, Ok c) ->
  (probes_of tr = [] /\
   exists st', (c = Continue st' \/ c = Break Converged st') /\ timeout st' = timeout st)
  \/ (probes_of tr = [Probe jid tgt tgt_type] /\
      (c = Continue {| found := found st; minions := minions st;
                       timeout := timeout st + inc |}
       \/ c = Break Expired st)).
Proof.
  unfold event_step. destruct (t_event t) as [[ids | id r o] |].
  - intros H. inversion H; subst. left. split; [reflexivity |].
    eexists. split; [left; reflexivity | reflexivity].
  - unfold emit. rewrite bind_ok. cbn [found minions timeout].
    destruct (all_returned ({[id]} ∪ found st) (minions st) (size (minions st)));
      cbn; intros H; inversion H; subst; left; (split; [reflexivity |]);
      eexists; (split; [eauto | reflexivity]).
  - destruct (all_returned (found st) (minions st) (size (minions st))).
    { intros H. inversion H; subst. left. split; [reflexivity |].
      eexists. split; [right; reflexivity | reflexivity]. }
    destruct (t_wtag t && negb (t_now_guard t >? start + timeout st + 1)).
    { intros H. inversion H; subst. left. split; [reflexivity |].
      eexists. split; [left; reflexivity | reflexivity]. }
    destruct (t_now t >? start + timeout st).
    2:{ intros H. inversion H; subst. left. split; [reflexivity |].
        eexists. split; [left; reflexivity | reflexivity]. }
    destruct (gather_job_info_effects self (t_probe t) jid tgt tgt_type kwargs)
      as [q [Hq Hquiet]].
    destruct (gather_job_info self (t_probe t) jid tgt tgt_type kwargs)
      as [ptr [jinfo | e |]]; cbn [fst] in Hq; subst ptr; [| discriminate | discriminate].
    rewrite bind_ok.
    destruct (cond_print verbose
                (map (fun id_ => "Execution is still running on " +:+ id_)
                   (running jinfo))) as [tr1 [-> Hq1]].
    rewrite bind_ok.
    destruct (negb (bool_decide (running jinfo = []))).
    + cbn [fst snd ret]. intros H. inversion H; subst. right.
      split; [| left; reflexivity].
      cbn [probes_of List.filter is_probe]. fold (probes_of (q ++ tr1 ++ [])).
      rewrite quiet_probes; [reflexivity |].
      apply quiet_app; [exact Hquiet | apply quiet_app; [exact Hq1 | constructor]].
    + destruct (cond_print
                  (verbose && glob_or_pcre tgt_type
                     && negb (bool_decide (size (minions st) <= size (found st))%nat))
                  (did_not_return :: sorted (elements (minions st ∖ found st))))
        as [tr2 [-> Hq2]].
      rewrite bind_ok. cbn [fst snd ret]. intros H. inversion H; subst. right.
      split; [| right; reflexivity].
      cbn [probes_of List.filter is_probe]. fold (probes_of (q ++ tr1 ++ tr2 ++ [])).
      rewrite quiet_probes; [reflexivity |].
      apply quiet_app; [exact Hquiet |].
      apply quiet_app; [exact Hq1 | apply quiet_app; [exact Hq2 | constructor]].
Qed.





(** ** The ids surfaced *)

Lemma ids_of_app tr1 tr2 : ids_of (tr1 ++ tr2) = ids_of tr1 ++ ids_of tr2.
Proof. unfold ids_of. rewrite yields_of_app. apply surfaced_ids_app. Qed.

Lemma ids_of_quiet tr : quiet tr -> ids_of tr = [].
Proof. intros H. unfold ids_of. rewrite quiet_yields by exact H. reflexivity. Qed.

Lemma ids_of_yield_empty : ids_of [Yield ∅] = [].
Proof.
  unfold ids_of, yields_of, surfaced_ids. cbn [omap list_omap mbind list_bind].
  rewrite dom_empty_L, elements_empty. reflexivity.
Qed.

Lemma ids_of_yield_singleton id (r : reply) : ids_of [Yield {[ id := r ]}] = [id].
Proof.
  unfold ids_of, yields_of, surfaced_ids. cbn [omap list_omap mbind list_bind].
  rewrite dom_singleton_L, elements_singleton. reflexivity.
Qed.

Lemma ids_of_yield_cons m tr : ids_of (Yield m :: tr) = elements (dom m) ++ ids_of tr.
Proof. reflexivity. Qed.

Lemma ids_of_probe jid tgt tgt_type tr :
  ids_of (Probe jid tgt tgt_type :: tr) = ids_of tr.
Proof. reflexivity. Qed.

Lemma ids_of_gather self w jid tgt tgt_type kwargs :
  ids_of (fst (gather_job_info self w jid tgt tgt_type kwargs)) = [].
Proof.
  destruct (gather_job_info_effects self w jid tgt tgt_type kwargs) as [q [-> Hq]].
  rewrite ids_of_probe. apply ids_of_quiet, Hq.
Qed.

Lemma ids_of_cond_print (b : bool) lines :
  ids_of (fst (if b then print_all lines else ret tt)) = [].
Proof.
  destruct b; [apply ids_of_quiet, print_all_quiet | reflexivity].
Qed.





Lemma fresh_mono found_ found' tr : found_ ⊆ found' -> fresh found' tr -> fresh found_ tr.
Proof.
  intros Hsub [Hnd Hfr]. split; [exact Hnd |].
  intros id Hin Hf. apply (Hfr id Hin), Hsub, Hf.
Qed.


Lemma event_step_ids self verbose jid tgt tgt_type kwargs start inc st t :
  ids_of (fst (event_step self verbose jid tgt tgt_type kwargs start inc st t))
  = match t_event t with
    | Some (Return id _ _) => [id]
    | _ => []
    end.
Proof.
  unfold event_step. destruct (t_event t) as [[ids | id r o] |].
  - reflexivity.
  - unfold emit. rewrite bind_ok. cbn [fst].
    rewrite ids_of_app, ids_of_yield_singleton.
    destruct (all_returned _ _ _); reflexivity.
  - destruct (all_returned _ _ _); [reflexivity |].
    destruct (t_wtag t && negb (t_now_guard t >? start + timeout st + 1));
      [reflexivity |].
    destruct (t_now t >? start + timeout st); [| reflexivity].
    rewrite fst_bind, ids_of_app, ids_of_gather. cbn [app].
    destruct (snd (gather_job_info self (t_probe t) jid tgt tgt_type kwargs))
      as [jinfo | e |]; [| reflexivity | reflexivity].
    rewrite fst_bind, ids_of_app, ids_of_cond_print. cbn [app].
    destruct (cond_print verbose
                (map (fun id_ => "Execution is still running on " +:+ id_)
                   (running jinfo))) as [tr1 [Hc _]].
    rewrite Hc. cbn [snd].
    destruct (negb (bool_decide (running jinfo = []))); [reflexivity |].
    rewrite fst_bind, ids_of_app, ids_of_cond_print. cbn [app].
    destruct (snd _); reflexivity.
Qed.


Lemma unknown_job_yield (isdir : bool) :
  exists tr, (if negb isdir then emit (Yield ∅) else ret tt) = (tr, Ok tt)
             /\ ids_of tr = [] /\ probes_of tr = [].
Proof.
  destruct isdir; cbn [negb].
  - exists []. repeat split.
  - exists [Yield ∅]. split; [reflexivity | split; [apply ids_of_yield_empty | reflexivity]].
Qed.

Lemma print_header_eq verbose jid :
  exists tr, print_header verbose jid = (tr, Ok tt) /\ quiet tr.
Proof. unfold print_header. apply cond_print. Qed.





Lemma all_returned_iff (fnd mns : gset string) :
  all_returned fnd mns (size mns) = true <-> mns ⊆ fnd.
Proof.
  unfold all_returned. rewrite bool_decide_eq_true. split.
  - intros Hs.
    assert (He : fnd ∩ mns = mns)
      by (apply set_subseteq_size_eq; [apply intersection_subseteq_r | exact Hs]).
    rewrite <- He. apply intersection_subseteq_l.
  - intros Hsub.
    assert (He : fnd ∩ mns = mns).
    { apply set_eq. intros x. rewrite elem_of_intersection. split; [intros [_ H]; exact H |].
      intros H. split; [apply Hsub, H | exact H]. }
    rewrite He. reflexivity.
Qed.

Lemma static_loop_quiet verbose tgt_type start T mns ticks :
  forall fnd ret_, quiet (fst (static_loop verbose tgt_type start T mns ticks fnd ret_)).
Proof.
  induction ticks as [| t ticks IH]; intros fnd ret_; [constructor |].
  cbn [static_loop].
  destruct (t_event t) as [[ids | id r o] |]; [constructor | |].
  - destruct (all_returned _ _ _); [constructor | apply IH].
  - destruct (all_returned _ _ _); [constructor |].
    destruct (t_wtag t && negb (t_now_guard t >? start + T + 1)); [apply IH |].
    destruct (t_now t >? start + T); [| apply IH].
    apply bind_quiet; [| intros; constructor].
    match goal with |- context [if ?b then _ else _] => destruct b end;
      [apply print_all_quiet | constructor].
Qed.
















(** ** The write-tag guard, loop by loop *)





(** ** The list of missing agents in [get_cli_returns] *)

Lemma unlisted_app tr1 tr2 : unlisted tr1 -> unlisted tr2 -> unlisted (tr1 ++ tr2).
Proof. apply Forall_app_2. Qed.

Lemma bind_unlisted {A B} (c : M A) (k : A -> M B) :
  unlisted (fst c) -> (forall a, unlisted (fst (k a))) -> unlisted (fst (bind c k)).
Proof.
  intros Hc Hk. rewrite fst_bind. apply unlisted_app; [exact Hc |].
  destruct (snd c); [apply Hk | constructor | constructor].
Qed.

Lemma print_all_unlisted lines :
  Forall (fun l => l <> did_not_return) lines -> unlisted (fst (print_all lines)).
Proof.
  intros H. rewrite print_all_eq. cbn [fst].
  induction H as [| l ls Hl _ IH]; constructor; [| exact IH].
  intros He. inversion He. contradiction.
Qed.

Lemma pub_unlisted self w tgt fn arg expr_form ret_ jid t kwargs :
  unlisted (fst (pub self w tgt fn arg expr_form ret_ jid t kwargs)).
Proof.
  unfold pub. destruct (negb (sock_exists w)); [constructor |].
  apply bind_unlisted.
  - destruct (String.eqb expr_form "nodegroup"); [| constructor].
    destruct tgt; [| constructor].
    destruct (o_nodegroups (opts self) !! s); constructor.
  - intros [tgt' ef']. apply bind_unlisted.
    + destruct (String.eqb ef' "range" && RANGE w); [| constructor].
      unfold convert_range_to_list. destruct (range_expand w tgt').
      * rewrite bind_ret_l. constructor.
      * constructor; [discriminate | constructor].
    + intros [tgt'' ef'']. destruct (sreq_send w _) as [[j m] |]; constructor.
Qed.

Lemma gather_unlisted self w jid tgt tgt_type kwargs :
  unlisted (fst (gather_job_info self w jid tgt tgt_type kwargs)).
Proof.
  unfold gather_job_info. apply bind_unlisted; [constructor; [discriminate | constructor] |].
  intros _. unfold cmd. apply bind_unlisted.
  - unfold run_job. apply bind_unlisted; [apply pub_unlisted | intros; constructor].
  - intros d. destruct (negb (dict_truthy d)); [constructor |].
    apply bind_unlisted; [unfold get_jid; destruct (pd_jid d); constructor |].
    intros j. apply bind_unlisted; [unfold get_minions; destruct (pd_minions d); constructor |].
    intros m. rewrite get_returns_silent. constructor.
Qed.

Lemma cli_scan_unlisted es : forall found_, unlisted (fst (cli_scan es found_)).
Proof.
  induction es as [| e es IH]; intros found_; [constructor |].
  cbn [cli_scan].
  destruct (String.prefix "." (e_name e)); [apply IH |].
  destruct (bool_decide (e_name e ∈ found_)); [apply IH |].
  destruct (negb (e_has_return e)); [apply IH |].
  destruct (load_entry _ _ _ _ _) as [[k m] |]; [| constructor].
  apply bind_unlisted; [constructor; [discriminate | constructor] | intros; apply IH].
Qed.

Lemma still_running_unlisted (b : bool) ids :
  unlisted (fst (if b then print_all (map (fun id_ => "Execution is still running on "
                                                       +:+ id_) ids)
                 else ret tt)).
Proof.
  destruct b; [| constructor]. apply print_all_unlisted.
  induction ids; constructor; [discriminate | assumption].
Qed.

(** In [get_cli_returns] the list of missing agents is printed under
    [len(found.intersection(minions)) >= len(minions)], the very test that
    left the loop as converged a few lines earlier: the line
    [The following minions did not return:] is never printed. *)
Lemma get_cli_returns_never_lists self w jid minions_ timeout_ tgt tgt_type verbose kwargs :
  unlisted (fst (get_cli_returns self w jid minions_ timeout_ tgt tgt_type
                   verbose kwargs)).
Proof.
  unfold get_cli_returns. apply bind_unlisted.
  { unfold print_header. destruct verbose; [| constructor].
    apply print_all_unlisted. constructor; [discriminate |].
    constructor; [| constructor]. cbn. discriminate. }
  intros _. apply bind_unlisted.
  { destruct (negb (cl_isdir w)); [constructor; [discriminate | constructor] | constructor]. }
  intros _.
  generalize (if_none timeout_ (o_timeout (opts self))) at 2 as T.
  generalize (∅ : gset string) as found_.
  induction (cl_passes w) as [| p passes IH]; intros found_ T; [constructor |].
  cbn [cli_loop]. destruct (cp_listing p) as [es |]; [| constructor].
  apply bind_unlisted; [apply cli_scan_unlisted |]. intros found'.
  destruct (cp_wtag p && negb (cp_now_guard p >? cl_now w + T + 1)); [apply IH |].
  destruct (all_returned found' (m_ids minions_) (m_len minions_)); [constructor |].
  destruct (cp_now p >? cl_now w + T); [| apply IH].
  apply bind_unlisted; [apply gather_unlisted |]. intros jinfo.
  apply bind_unlisted; [apply still_running_unlisted |]. intros _.
  destruct (negb (bool_decide (running jinfo = []))); [apply IH |].
  rewrite andb_false_r. constructor.
Qed.

(** * Further properties *)

(** ** Checked publish data *)

(** X1: when [_check_pub_data] hands back a truthy mapping, it is the
    mapping it was given, and that mapping carries a jid other than ['0'];
    so [pub_data['jid']] in the aggregators cannot raise. *)
Theorem checked_pub_data_has_live_jid (p : pub_data) (d : pub_dict) :
  check_pub_data p = Ok d ->
  dict_truthy d = true ->
  p = Some d
  /\ (exists j, pd_jid d = Some j /\ j <> "0")
  /\ (exists j, get_jid d = ret j).
Proof.
  intros H Ht. unfold check_pub_data in H.
  destruct p as [d0 |]; [| discriminate].
  destruct (negb (dict_truthy d0)); [discriminate |].
  destruct (pd_jid d0) as [j |] eqn:Hj.
  - destruct (String.eqb_spec j "0") as [-> | Hne].
    + inversion H; subst. discriminate.
    + inversion H; subst. split; [reflexivity |].
      split; [exists j; split; [exact Hj | exact Hne] |].
      exists j. unfold get_jid. rewrite Hj. reflexivity.
  - inversion H; subst. discriminate.
Qed.

Lemma checked_pub_data_has_live_jid_witness :
  check_pub_data (Some (PubDict (Some "7") (Some ["a"])))
    = Ok (PubDict (Some "7") (Some ["a"]))
  /\ dict_truthy (PubDict (Some "7") (Some ["a"])) = true
  /\ exists j, pd_jid (PubDict (Some "7") (Some ["a"])) = Some j /\ j <> "0".
Proof.
  split; [reflexivity | split; [reflexivity |]].
  apply (checked_pub_data_has_live_jid (Some (PubDict (Some "7") (Some ["a"])))
           (PubDict (Some "7") (Some ["a"])) eq_refl eq_refl).
Defined.

(** ** What [pub] sends and raises *)



(** X3: a known node group is published as a [compound] expression, the
    one that [nodegroup_comp] composes, with the function, the positional
    arguments and the jid handed through; the result is the master's reply
    to that payload. *)
Theorem nodegroup_is_published_as_compound (self : LocalClient) (w : PubWorld)
    (g c fn : string) (arg : list value) (ret_ jid : string)
    (t : Z) (kwargs : list (string * value)) :
  sock_exists w = true ->
  o_nodegroups (opts self) !! g = Some c ->
  exists p : payload,
    p_tgt p = TStr (nodegroup_comp w g (o_nodegroups (opts self)))
    /\ p_tgt_type p = "compound"
    /\ p_cmd p = "publish" /\ p_fun p = fn /\ p_arg p = arg /\ p_jid p = jid
    /\ p_key p = key self
    /\ pub self w (TStr g) fn arg "nodegroup" ret_ jid t kwargs
       = match sreq_send w p with
         | None => ret None
         | Some (j, m) => ret (Some (PubDict (Some j) (Some m)))
         end.
Proof.
  intros Hs Hg. unfold pub. rewrite Hs. cbn [negb String.eqb Ascii.eqb Bool.eqb].
  rewrite Hg, bind_ret_l. cbn [String.eqb Ascii.eqb Bool.eqb andb].
  rewrite bind_ret_l.
  eexists. repeat (split; [| try reflexivity]); reflexivity.
Qed.

Lemma nodegroup_is_published_as_compound_witness :
  let self := {| opts := {| o_timeout := 5; o_sock_dir := ""; o_cachedir := "";
                            o_hash_type := "md5"; o_user := None;
                            o_order_masters := false; o_ext_job_cache := None;
                            o_nodegroups := {[ "web" := "L@web1,web2" ]};
                            o_conf_file := None; o_interface := ""; o_ret_port := "" |};
                 salt_user := "root"; key := "k" |} in
  sock_exists (pub_up (Some ("9", ["web1"]))) = true /\
  o_nodegroups (opts self) !! "web" = Some "L@web1,web2" /\
  exists p : payload,
    p_tgt_type p = "compound"
    /\ pub self (pub_up (Some ("9", ["web1"]))) (TStr "web") "test.ping" []
         "nodegroup" "" "" 5 []
       = match sreq_send (pub_up (Some ("9", ["web1"]))) p with
         | None => ret None
         | Some (j, m) => ret (Some (PubDict (Some j) (Some m)))
         end.
Proof.
  intros self.
  assert (H1 : sock_exists (pub_up (Some ("9", ["web1"]))) = true) by reflexivity.
  assert (H2 : o_nodegroups (opts self) !! "web" = Some "L@web1,web2")
    by (vm_compute; reflexivity).
  split; [exact H1 | split; [exact H2 |]].
  destruct (nodegroup_is_published_as_compound self (pub_up (Some ("9", ["web1"])))
              "web" "L@web1,web2" "test.ping" [] "" "" 5 [] H1 H2)
    as (p & _ & Hk & _ & _ & _ & _ & _ & Hp).
  exists p. split; [exact Hk | exact Hp].
Defined.

(** X4: when the range backend raises, [pub] does not: it prints one line
    and publishes to the empty list of ids with kind [list]; the result is
    the master's reply to that payload. *)
Theorem range_failure_is_swallowed (self : LocalClient) (w : PubWorld)
    (tgt : target) (fn : string) (arg : list value) (ret_ jid : string)
    (t : Z) (kwargs : list (string * value)) :
  sock_exists w = true ->
  RANGE w = true ->
  range_expand w tgt = None ->
  exists p : payload,
    p_tgt p = TList [] /\ p_tgt_type p = "list"
    /\ p_fun p = fn /\ p_arg p = arg /\ p_jid p = jid
    /\ pub self w tgt fn arg "range" ret_ jid t kwargs
       = ([Print ("Range server exception: " +:+ range_error w)],
          match sreq_send w p with
          | None => Ok None
          | Some (j, m) => Ok (Some (PubDict (Some j) (Some m)))
          end).
Proof.
  intros Hs HR He. unfold pub. rewrite Hs. cbn [negb String.eqb Ascii.eqb Bool.eqb].
  rewrite bind_ret_l. cbn [String.eqb Ascii.eqb Bool.eqb andb]. rewrite HR.
  unfold convert_range_to_list. rewrite He.
  unfold emit, ret, bind. cbn [app].
  match goal with |- context [sreq_send w ?P] => exists P end.
  repeat (split; [reflexivity |]).
  destruct (sreq_send w _) as [[j m] |]; reflexivity.
Qed.

Lemma range_failure_is_swallowed_witness :
  let w := {| sock_exists := true; RANGE := true; range_expand := fun _ => None;
              range_error := "no route"; nodegroup_comp := fun g _ => g;
              sreq_send := fun _ => Some ("9", []) |} in
  sock_exists w = true /\ RANGE w = true /\ range_expand w (TStr "%cluster") = None /\
  exists p : payload,
    p_tgt p = TList [] /\ p_tgt_type p = "list"
    /\ pub client0 w (TStr "%cluster") "test.ping" [] "range" "" "" 5 []
       = ([Print ("Range server exception: " +:+ range_error w)],
          match sreq_send w p with
          | None => Ok None
          | Some (j, m) => Ok (Some (PubDict (Some j) (Some m)))
          end).
Proof.
  intros w.
  split; [reflexivity | split; [reflexivity | split; [reflexivity |]]].
  destruct (range_failure_is_swallowed client0 w (TStr "%cluster") "test.ping" [] "" ""
              5 [] eq_refl eq_refl eq_refl) as (p & H1 & H2 & _ & _ & _ & H3).
  exists p. split; [exact H1 | split; [exact H2 | exact H3]].
Defined.

(** ** Identity and key *)

Lemma get_user_sudo (h : Host) (o : Opts) (su : string) :
  sudo_user h = Some su -> get_user h o = Ok ("sudo_" +:+ su).
Proof.
  intros Hs. unfold get_user. rewrite Hs.
  rewrite bool_decide_eq_true_2 by eauto. rewrite orb_true_r. reflexivity.
Qed.

(** X5: [__get_user] gives [sudo_<SUDO_USER>] whenever [SUDO_USER] is set,
    whoever runs the command, and the login name otherwise; the comparison
    with the configured user changes nothing, except that a client that is
    not root needs the key ['user'] in its options. *)
Theorem get_user_cases (h : Host) (o : Opts) :
  get_user h o =
    match sudo_user h with
    | Some su => Ok ("sudo_" +:+ su)
    | None =>
        if String.eqb (getuser h) "root" then Ok (getuser h)
        else match o_user o with
             | Some _ => Ok (getuser h)
             | None => Raise KeyError
             end
    end.
Proof.
  unfold get_user. destruct (sudo_user h) as [su |].
  - rewrite bool_decide_eq_true_2 by eauto. rewrite orb_true_r. reflexivity.
  - rewrite bool_decide_eq_false_2 by (intros [x Hx]; discriminate).
    rewrite orb_false_r.
    destruct (String.eqb (getuser h) "root"); [reflexivity |].
    destruct (o_user o) as [u |]; [| reflexivity].
    destruct (String.eqb (getuser h) u); reflexivity.
Qed.

Lemma sudo_name_is_not_root su :
  String.eqb ("sudo_" +:+ su) "root" = false
  /\ String.prefix "sudo_" ("sudo_" +:+ su) = true.
Proof. split; [reflexivity | simpl; destruct su; reflexivity]. Qed.

(** X6: under [sudo] the constructor names the client
    [sudo_<SUDO_USER>] and works on the key file of the configured user
    ([root] when none is configured), [<cachedir>/.<user>_key].  What
    [check_parent_dirs] raises for that file is raised to the caller;
    otherwise a key file that cannot be read gives the empty key; and the
    client is built unless [Serial] or [MasterEvent] raises. *)
Theorem sudo_client_reads_configured_key (h : Host) (c_path su : string) :
  sudo_user h = Some su ->
  let o := client_config h c_path in
  let user := default "root" (o_user o) in
  let keyfile := path_join (o_cachedir o) ("." +:+ user +:+ "_key") in
  init h c_path None
    = match new_serial h o with
      | Some e => Raise e
      | None =>
          match check_parent_dirs h keyfile user with
          | Some e => Raise e
          | None =>
              match new_event h (o_sock_dir o) with
              | Some e => Raise e
              | None => Ok {| opts := o; salt_user := "sudo_" +:+ su;
                              key := default "" (read_file h keyfile) |}
              end
          end
      end.
Proof.
  intros Hs o user keyfile. unfold init. cbn [mopts_truthy].
  fold o. destruct (new_serial h o); [reflexivity |].
  rewrite (get_user_sudo h o su Hs).
  unfold read_master_key, key_user_of, keyfile_of.
  destruct (sudo_name_is_not_root su) as [-> ->].
  fold user. fold keyfile.
  destruct (check_parent_dirs h keyfile user); [reflexivity |].
  destruct (read_file h keyfile); reflexivity.
Qed.

Lemma sudo_client_reads_configured_key_witness :
  let h := {| client_config := fun _ => opts0; getuser := "root";
              sudo_user := Some "alice"; read_file := fun _ => None;
              check_parent_dirs := fun _ _ => None; new_serial := fun _ => None;
              new_event := fun _ => None |} in
  sudo_user h = Some "alice" /\
  init h "/etc/salt" None
    = Ok {| opts := opts0; salt_user := "sudo_alice"; key := "" |}.
Proof.
  intros h. split; [reflexivity |].
  exact (sudo_client_reads_configured_key h "/etc/salt" "alice" eq_refl).
Defined.

(** ** The aggregators side by side *)

Lemma get_cli_event_returns_quietly self w jid minions_ timeout_ tgt tgt_type kwargs :
  get_cli_event_returns self w jid minions_ timeout_ tgt tgt_type false kwargs
  = get_iter_returns self w jid minions_ timeout_ tgt tgt_type kwargs.
Proof.
  unfold get_cli_event_returns, get_iter_returns.
  cbn [print_header]. rewrite bind_ret_l. reflexivity.
Qed.

(** X7: with [verbose] off, [cmd_cli] is [cmd_iter]: the same effects in
    the same order and the same outcome, in every world. *)
Theorem cmd_cli_quiet_is_cmd_iter (self : LocalClient) (sw : StreamWorld)
    (tgt : target) (fn : string) (arg : list value) (timeout_ : option Z)
    (expr_form ret_ : string) (kwarg : option (list (string * value)))
    (kwargs : list (string * value)) :
  cmd_cli self sw tgt fn arg timeout_ expr_form ret_ false kwarg kwargs
  = cmd_iter self sw tgt fn arg timeout_ expr_form ret_ kwarg kwargs.
Proof.
  unfold cmd_cli, cmd_iter.
  destruct (run_job self (sw_job sw) tgt fn (condition_kwarg arg kwarg) expr_form
              ret_ timeout_ kwargs) as [tr [pd | e |]]; [| reflexivity | reflexivity].
  rewrite !bind_ok. cbn [fst snd].
  destruct (negb (dict_truthy pd)); [reflexivity |].
  destruct (get_jid pd) as [trj [j | e |]]; [| reflexivity | reflexivity].
  rewrite !bind_ok. cbn [fst snd].
  destruct (get_minions pd) as [trm [m | e |]]; [| reflexivity | reflexivity].
  rewrite !bind_ok. cbn [fst snd].
  rewrite get_cli_event_returns_quietly. reflexivity.
Qed.

(** X8: the two blocking aggregators never yield and never invoke the
    liveness probe: [cmd] gathers with [get_returns] and [cmd_full_return]
    with [get_cli_static_event_returns], and neither gatherer calls
    [gather_job_info] or extends its timeout; all they may do is print. *)
Theorem blocking_aggregators_never_probe (self : LocalClient) (cw : CmdWorld)
    (sw : StreamWorld) (tgt : target) (fn : string) (arg : list value)
    (timeout_ : option Z) (expr_form ret_ : string) (verbose : bool)
    (kwarg : option (list (string * value))) (kwargs : list (string * value)) :
  let c := cmd self cw tgt fn arg timeout_ expr_form ret_ kwarg kwargs in
  let f := cmd_full_return self sw tgt fn arg timeout_ expr_form ret_ verbose
             kwarg kwargs in
  probes_of (fst c) = [] /\ yields_of (fst c) = []
  /\ probes_of (fst f) = [] /\ yields_of (fst f) = [].
Proof.
  intros c f.
  assert (Hc : quiet (fst c)) by apply cmd_quiet.
  assert (Hf : quiet (fst f)).
  { subst f. unfold cmd_full_return. apply bind_quiet; [apply run_job_quiet |].
    intros d. destruct (negb (dict_truthy d)); [constructor |].
    apply bind_quiet; [unfold get_jid; destruct (pd_jid d); constructor |].
    intros j. apply bind_quiet; [unfold get_minions; destruct (pd_minions d); constructor |].
    intros m. unfold get_cli_static_event_returns.
    apply bind_quiet; [destruct (print_header_eq verbose j) as (tr & -> & Hq); exact Hq |].
    intros _. destruct (negb (ew_isdir (sw_events sw))); [constructor |].
    apply static_loop_quiet. }
  split; [apply quiet_probes, Hc | split; [apply quiet_yields, Hc |]].
  split; [apply quiet_probes, Hf | apply quiet_yields, Hf].
Qed.

(** ** What the event-driven loop keeps *)

(** With [minions] a set, the test
    [len(found.intersection(minions)) >= len(minions)] holds exactly when
    every expected id has been found. *)
Lemma event_step_state self verbose jid tgt tgt_type kwargs start inc st t tr c :
  event_step self verbose jid tgt tgt_type kwargs start inc st t = (tr, Ok c) ->
  found (state_of c) = found st ∪ list_to_set (ids_of tr)
  /\ minions st ⊆ minions (state_of c)
  /\ match c with
     | Continue _ => True
     | Break Converged st' => minions st' ⊆ found st'
     | Break Expired st' =>
         st' = st /\ ~ minions st ⊆ found st /\ t_event t = None
         /\ t_now t > start + timeout st
         /\ (t_wtag t = true -> t_now_guard t > start + timeout st + 1)
     end.
Proof.
  intros H. pose proof H as H0.
  pose proof (event_step_ids self verbose jid tgt tgt_type kwargs start inc st t) as Hi.
  rewrite H in Hi. cbn [fst] in Hi. rewrite Hi. clear Hi.
  unfold event_step in H. destruct (t_event t) as [[ids | id r o] |] eqn:He.
  - inversion H; subst. cbn [state_of found minions list_to_set].
    split; [rewrite union_empty_r_L; reflexivity |].
    split; [apply union_subseteq_l | exact I].
  - unfold emit in H. rewrite bind_ok in H. cbn [found minions timeout] in H.
    destruct (all_returned ({[id]} ∪ found st) (minions st) (size (minions st))) eqn:Ha;
      cbn in H; inversion H; subst; cbn [state_of found minions list_to_set];
      (split; [rewrite union_empty_r_L; apply union_comm_L |]);
      (split; [reflexivity |]); [| exact I].
    apply all_returned_iff, Ha.
  - cbn [list_to_set]. rewrite union_empty_r_L.
    destruct (all_returned (found st) (minions st) (size (minions st))) eqn:Ha.
    { inversion H; subst. cbn [state_of].
      split; [reflexivity | split; [reflexivity |]]. apply all_returned_iff, Ha. }
    assert (Hn : ~ minions st ⊆ found st).
    { intros Hsub. apply all_returned_iff in Hsub. congruence. }
    destruct (t_wtag t && negb (t_now_guard t >? start + timeout st + 1)) eqn:Hw.
    { inversion H; subst. cbn [state_of]. split; [reflexivity | split; [reflexivity | exact I]]. }
    destruct (t_now t >? start + timeout st) eqn:Hgt.
    2:{ inversion H; subst. cbn [state_of].
        split; [reflexivity | split; [reflexivity | exact I]]. }
    apply bind_inv in H. destruct H as (tr1 & jinfo & tr2 & Hg & _ & ->).
    destruct (gather_job_info_effects self (t_probe t) jid tgt tgt_type kwargs)
      as [q [Hq _]].
    rewrite Hg in Hq. cbn [fst] in Hq. subst tr1.
    apply event_step_cases in H0. destruct H0 as [[Hp _] | [_ [-> | ->]]];
      [cbn in Hp; discriminate Hp | |]; cbn [state_of found minions].
    + split; [reflexivity | split; [reflexivity | exact I]].
    + split; [reflexivity | split; [reflexivity |]].
      split; [reflexivity | split; [exact Hn | split; [reflexivity |]]].
      split; [apply Z.gtb_lt in Hgt; lia |].
      intros Hwt. rewrite Hwt in Hw. cbn [andb] in Hw.
      apply negb_false_iff, Z.gtb_lt in Hw. lia.
Qed.

Lemma event_loop_state self verbose jid tgt tgt_type kwargs start inc ticks :
  forall st tr why st',
  event_loop self verbose jid tgt tgt_type kwargs start inc ticks st
    = (tr, Ok (why, st')) ->
  found st' = found st ∪ list_to_set (ids_of tr)
  /\ minions st ⊆ minions st'
  /\ match why with
     | Converged => minions st' ⊆ found st'
     | Expired =>
         ~ minions st' ⊆ found st'
         /\ exists t, t ∈ ticks /\ t_event t = None
              /\ t_now t > start + timeout st'
              /\ (t_wtag t = true -> t_now_guard t > start + timeout st' + 1)
     end.
Proof.
  induction ticks as [| t ticks IH]; intros st tr why st' H; [discriminate |].
  cbn [event_loop] in H.
  apply bind_inv in H. destruct H as (tr1 & c & tr2 & Hs & Hk & ->).
  apply event_step_state in Hs. destruct Hs as (Hf & Hm & Hc).
  rewrite ids_of_app, list_to_set_app_L.
  destruct c as [st1 | why1 st1]; cbn [state_of] in Hf, Hm.
  - apply IH in Hk. destruct Hk as (Hf' & Hm' & Hw).
    split; [rewrite Hf', Hf, (assoc_L (∪)); reflexivity |].
    split; [etrans; eassumption |].
    destruct why; [exact Hw |]. destruct Hw as [Hn (t' & Hin & Ht)].
    split; [exact Hn |]. exists t'. split; [right; exact Hin | exact Ht].
  - inversion Hk; subst. cbn [ids_of yields_of omap list_omap surfaced_ids mbind list_bind
                              list_to_set].
    rewrite union_empty_r_L. split; [exact Hf | split; [exact Hm |]].
    destruct why; [exact Hc |].
    destruct Hc as (-> & Hn & He & Hgt & Hwt).
    split; [exact Hn |]. exists t. split; [left | auto].
Qed.

Lemma get_cli_event_returns_inv self w jid minions_ timeout_ tgt tgt_type verbose kwargs
    tr x :
  get_cli_event_returns self w jid minions_ timeout_ tgt tgt_type verbose kwargs
    = (tr, Ok x) ->
  exists tr0 tr1,
    tr = tr0 ++ tr1 /\ ids_of tr0 = [] /\ probes_of tr0 = []
    /\ event_loop self verbose jid tgt tgt_type kwargs (ew_now w)
         (if_none timeout_ (o_timeout (opts self))) (ew_ticks w)
         {| found := ∅; minions := normalize minions_;
            timeout := if_none timeout_ (o_timeout (opts self)) |} = (tr1, Ok x).
Proof.
  unfold get_cli_event_returns.
  destruct (print_header_eq verbose jid) as (trh & -> & Hq).
  rewrite bind_ok. cbn [fst snd].
  destruct (unknown_job_yield (ew_isdir w)) as (try & -> & Hi & Hp).
  rewrite bind_ok. cbn [fst snd].
  destruct (event_loop _ _ _ _ _ _ _ _ _ _) as [tr1 o] eqn:Hl. cbn [fst snd].
  intros H. inversion H; subst.
  exists (trh ++ try), tr1. rewrite <- app_assoc. split; [reflexivity |].
  split; [rewrite ids_of_app, (ids_of_quiet _ Hq), Hi; reflexivity |].
  split; [rewrite probes_of_app, (quiet_probes _ Hq), Hp; reflexivity | reflexivity].
Qed.

(** X9: when an event-driven gatherer finishes, [found] is exactly the
    set of ids it yielded and the expected set contains the one it was
    given (forwarder announcements only add to it); it finishes through the
    [break] under "All minions have returned" exactly when every expected id
    was yielded.  Stated for [get_cli_event_returns]; with [verbose] off it
    is [get_iter_returns]. *)
Theorem gatherer_found_is_what_it_yielded (self : LocalClient) (w : EventWorld)
    (jid : string) (minions_ : minions_arg) (timeout_ : option Z)
    (tgt : target) (tgt_type : string) (verbose : bool)
    (kwargs : list (string * value))
    (tr : list effect) (why : reason) (st : loop_state) :
  get_cli_event_returns self w jid minions_ timeout_ tgt tgt_type verbose kwargs
    = (tr, Ok (why, st)) ->
  found st = list_to_set (ids_of tr)
  /\ normalize minions_ ⊆ minions st
  /\ (why = Converged <-> minions st ⊆ found st)
  /\ get_iter_returns self w jid minions_ timeout_ tgt tgt_type kwargs
     = get_cli_event_returns self w jid minions_ timeout_ tgt tgt_type false kwargs.
Proof.
  intros H. apply get_cli_event_returns_inv in H.
  destruct H as (tr0 & tr1 & -> & Hi & _ & Hl).
  apply event_loop_state in Hl. cbn [found minions] in Hl.
  destruct Hl as (Hf & Hm & Hw).
  split; [rewrite ids_of_app, Hi, Hf, union_empty_l_L; reflexivity |].
  split; [exact Hm |].
  split; [| symmetry; apply get_cli_event_returns_quietly].
  destruct why.
  - split; [intros _; exact Hw | reflexivity].
  - destruct Hw as [Hn _]. split; [discriminate | intros Hs; contradiction].
Qed.

Lemma gatherer_found_is_what_it_yielded_witness :
  get_cli_event_returns client0 stray_return "1" (MList ["a"; "b"]) None
    (TStr "*") "glob" true []
  = ([ Print "Executing job with jid 1";
       Print (dashes 24 +:+ nl);
       Yield {[ "x" := Reply (VInt 0) None ]};
       Yield {[ "a" := Reply (VInt 1) None ]};
       Probe "1" (TStr "*") "glob" ],
     Ok (Expired, {| found := {[ "x"; "a" ]}; minions := {[ "a"; "b" ]}; timeout := 5 |}))
  /\ ({[ "x"; "a" ]} : gset string) = list_to_set ["x"; "a"].
Proof.
  assert (H : get_cli_event_returns client0 stray_return "1" (MList ["a"; "b"]) None
                (TStr "*") "glob" true []
              = ([ Print "Executing job with jid 1";
                   Print (dashes 24 +:+ nl);
                   Yield {[ "x" := Reply (VInt 0) None ]};
                   Yield {[ "a" := Reply (VInt 1) None ]};
                   Probe "1" (TStr "*") "glob" ],
                 Ok (Expired, {| found := {[ "x"; "a" ]}; minions := {[ "a"; "b" ]};
                                 timeout := 5 |})))
    by (vm_compute; reflexivity).
  split; [exact H |].
  destruct (gatherer_found_is_what_it_yielded _ _ _ _ _ _ _ _ _ _ _ _ H) as [Hf _].
  cbn [found] in Hf. rewrite Hf. vm_compute. reflexivity.
Defined.

(** X10: an event-driven gatherer never gives up early.  When it ends as
    [Expired], some wait on the event bus elapsed at a time past
    [start + T] for the final [T], with no write tag within its grace of one
    second; and not every expected id had returned. *)
Theorem expiry_is_past_the_timeout (self : LocalClient) (w : EventWorld)
    (jid : string) (minions_ : minions_arg) (timeout_ : option Z)
    (tgt : target) (tgt_type : string) (verbose : bool)
    (kwargs : list (string * value)) (tr : list effect) (st : loop_state) :
  get_cli_event_returns self w jid minions_ timeout_ tgt tgt_type verbose kwargs
    = (tr, Ok (Expired, st)) ->
  ~ minions st ⊆ found st
  /\ exists t, t ∈ ew_ticks w /\ t_event t = None
       /\ t_now t > ew_now w + timeout st
       /\ (t_wtag t = true -> t_now_guard t > ew_now w + timeout st + 1).
Proof.
  intros H. apply get_cli_event_returns_inv in H.
  destruct H as (tr0 & tr1 & -> & _ & _ & Hl).
  apply event_loop_state in Hl. destruct Hl as (_ & _ & Hw). exact Hw.
Qed.

Lemma expiry_is_past_the_timeout_witness :
  get_cli_event_returns client0 stray_return "1" (MList ["a"; "b"]) None
    (TStr "*") "glob" false []
  = ([ Yield {[ "x" := Reply (VInt 0) None ]};
       Yield {[ "a" := Reply (VInt 1) None ]};
       Probe "1" (TStr "*") "glob" ],
     Ok (Expired, {| found := {[ "x"; "a" ]}; minions := {[ "a"; "b" ]}; timeout := 5 |}))
  /\ exists t, t ∈ ew_ticks stray_return /\ t_event t = None /\ t_now t > 0 + 5.
Proof.
  assert (H : get_cli_event_returns client0 stray_return "1" (MList ["a"; "b"]) None
                (TStr "*") "glob" false []
              = ([ Yield {[ "x" := Reply (VInt 0) None ]};
                   Yield {[ "a" := Reply (VInt 1) None ]};
                   Probe "1" (TStr "*") "glob" ],
                 Ok (Expired, {| found := {[ "x"; "a" ]}; minions := {[ "a"; "b" ]};
                                 timeout := 5 |})))
    by (vm_compute; reflexivity).
  split; [exact H |].
  destruct (expiry_is_past_the_timeout _ _ _ _ _ _ _ _ _ _ _ H) as [_ (t & Hin & He & Hgt & _)].
  exists t. split; [exact Hin | split; [exact He | exact Hgt]].
Defined.



(** X12: with nothing expected, [get_iter_returns] does not end at once:
    it waits for the event bus, and ends as converged on the first event
    that is not a forwarder announcement, a return (which it yields) or an
    elapsed wait. *)
Theorem empty_expected_ends_on_first_event (self : LocalClient) (w : EventWorld)
    (jid : string) (minions_ : minions_arg) (timeout_ : option Z)
    (tgt : target) (tgt_type : string) (kwargs : list (string * value))
    (t : tick) (rest : list tick) :
  normalize minions_ = ∅ ->
  ew_isdir w = true ->
  ew_ticks w = t :: rest ->
  not_syndic t ->
  exists st',
    get_iter_returns self w jid minions_ timeout_ tgt tgt_type kwargs
    = (match t_event t with
       | Some (Return id r o) => [Yield {[ id := Reply r o ]}]
       | _ => []
       end, Ok (Converged, st')).
Proof.
  intros Hm Hd Ht Hs. unfold get_iter_returns. rewrite Hm, Hd, Ht.
  cbn [negb]. rewrite bind_ret_l. cbn [event_loop]. unfold event_step.
  unfold not_syndic in Hs.
  destruct (t_event t) as [[ids | id r o] |]; [destruct Hs | |];
    cbn [found minions timeout].
  - assert (Ha : all_returned ({[id]} ∪ ∅) ∅ (size (∅ : gset string)) = true)
      by (apply all_returned_iff, empty_subseteq).
    rewrite Ha. unfold emit. rewrite !bind_ok. cbn [fst snd ret app].
    eexists. reflexivity.
  - assert (Ha : all_returned ∅ ∅ (size (∅ : gset string)) = true)
      by (apply all_returned_iff, empty_subseteq).
    rewrite Ha. rewrite bind_ret_l. eexists. reflexivity.
Qed.

Lemma empty_expected_ends_on_first_event_witness :
  normalize (MList []) = ∅ /\
  ew_isdir (events_of [idle false 1 probe_silent]) = true /\
  ew_ticks (events_of [idle false 1 probe_silent]) = [idle false 1 probe_silent] /\
  not_syndic (idle false 1 probe_silent) /\
  exists st',
    get_iter_returns client0 (events_of [idle false 1 probe_silent]) "1" (MList [])
      None (TStr "*") "glob" []
    = ([], Ok (Converged, st')).
Proof.
  split; [reflexivity | split; [reflexivity | split; [reflexivity | split; [exact I |]]]].
  exact (empty_expected_ends_on_first_event client0 (events_of [idle false 1 probe_silent])
           "1" (MList []) None (TStr "*") "glob" [] (idle false 1 probe_silent) []
           eq_refl eq_refl eq_refl I).
Defined.

(** ** [get_event_iter_returns] *)

Lemma event_iter_loop_probes ticks :
  forall fnd, probes_of (fst (event_iter_loop ticks fnd)) = [].
Proof.
  induction ticks as [| t ticks IH]; intros fnd; [reflexivity |].
  cbn [event_iter_loop]. destruct (t_event t) as [[ids | id r o] |]; try reflexivity.
  unfold emit. rewrite bind_ok. cbn [fst]. rewrite probes_of_app. apply IH.
Qed.

Lemma event_iter_loop_returns pre :
  forall t rest fnd,
  Forall is_return pre ->
  t_event t = None ->
  snd (event_iter_loop (pre ++ t :: rest) fnd) = Ok (fnd ∪ list_to_set (reply_ids pre))
  /\ ids_of (fst (event_iter_loop (pre ++ t :: rest) fnd)) = reply_ids pre.
Proof.
  induction pre as [| p pre IH]; intros t rest fnd Hp Ht.
  - cbn [app event_iter_loop]. rewrite Ht. cbn.
    rewrite union_empty_r_L. split; reflexivity.
  - apply Forall_cons in Hp. destruct Hp as [Hr Hp]. unfold is_return in Hr.
    cbn [app event_iter_loop]. unfold reply_ids. cbn [omap list_omap].
    destruct (t_event p) as [[ids | id r o] |]; try destruct Hr.
    fold (reply_ids pre). unfold emit. rewrite bind_ok. cbn [fst snd].
    destruct (IH t rest ({[id]} ∪ fnd) Hp Ht) as [Hs Hi].
    rewrite Hs. cbn [app]. rewrite ids_of_yield_cons, dom_singleton_L, elements_singleton, Hi.
    cbn [app list_to_set]. split; [| reflexivity].
    f_equal. rewrite (assoc_L (∪)), (comm_L (∪) {[id]} fnd). reflexivity.
Qed.

(** X13: [get_event_iter_returns] breaks hard: it never invokes the
    liveness probe, and the first wait that elapses ends it.  Fed [n]
    returns and then an elapsed wait, it yields those [n] returns in order
    and stops, whatever follows and whoever is expected. *)
Theorem event_iter_breaks_at_first_timeout (self : LocalClient) (w : EventWorld)
    (jid : string) (minions_ : minions_arg) (timeout_ : option Z)
    (pre : list tick) (t : tick) (rest : list tick) :
  ew_ticks w = pre ++ t :: rest ->
  Forall is_return pre ->
  t_event t = None ->
  let c := get_event_iter_returns self w jid minions_ timeout_ in
  snd c = Ok (list_to_set (reply_ids pre))
  /\ ids_of (fst c) = reply_ids pre
  /\ probes_of (fst c) = [].
Proof.
  intros Hw Hp Ht c. subst c. unfold get_event_iter_returns. rewrite Hw.
  destruct (unknown_job_yield (ew_isdir w)) as (try & -> & Hi & Hpr).
  rewrite bind_ok. cbn [fst snd].
  destruct (event_iter_loop_returns pre t rest ∅ Hp Ht) as [Hs Hids].
  rewrite Hs, ids_of_app, Hi, Hids, probes_of_app, Hpr, event_iter_loop_probes.
  rewrite union_empty_l_L. repeat split.
Qed.

Lemma event_iter_breaks_at_first_timeout_witness :
  let pre := [on_event (Return "a" (VInt 1) None); on_event (Return "a" (VInt 2) None)] in
  let w := events_of (pre ++ idle false 1 probe_silent
                          :: [on_event (Return "b" (VInt 3) None)]) in
  ew_ticks w = pre ++ idle false 1 probe_silent :: [on_event (Return "b" (VInt 3) None)] /\
  Forall is_return pre /\
  t_event (idle false 1 probe_silent) = None /\
  ids_of (fst (get_event_iter_returns client0 w "1" (MList ["a"; "b"]) None))
    = ["a"; "a"].
Proof.
  intros pre w.
  assert (Hp : Forall is_return pre) by (repeat constructor).
  split; [reflexivity | split; [exact Hp | split; [reflexivity |]]].
  destruct (event_iter_breaks_at_first_timeout client0 w "1" (MList ["a"; "b"]) None
              pre (idle false 1 probe_silent) [on_event (Return "b" (VInt 3) None)]
              eq_refl Hp eq_refl) as (_ & Hi & _).
  exact Hi.
Defined.

(** ** [get_returns] and [get_full_returns] *)

Lemma elem_of_committed x es :
  x ∈ committed es <->
  exists e, e ∈ es /\ e_name e = x
            /\ String.prefix "." (e_name e) = false /\ e_has_return e = true.
Proof.
  unfold committed. rewrite elem_of_list_to_set, list_elem_of_In, in_map_iff. split.
  - intros (e & Hn & Hin). apply filter_In in Hin. destruct Hin as [Hin Hc].
    apply andb_true_iff in Hc. destruct Hc as [Hh Hr].
    exists e. rewrite list_elem_of_In. apply negb_true_iff in Hh. auto.
  - intros (e & Hin & Hn & Hh & Hr). exists e. split; [exact Hn |].
    apply filter_In. rewrite <- list_elem_of_In. split; [exact Hin |].
    rewrite Hh, Hr. reflexivity.
Qed.

Lemma scan_returns_keys es :
  forall ret_ ret', scan_returns es ret_ = Some ret' ->
  dom ret' ⊆ dom ret_ ∪ committed es.
Proof.
  induction es as [| e es IH]; intros ret_ ret' H.
  - inversion H; subst. apply union_subseteq_l.
  - assert (Hmono : committed es ⊆ committed (e :: es)).
    { intros x Hx. apply elem_of_committed in Hx. destruct Hx as (e' & Hin & Hx).
      apply elem_of_committed. exists e'. split; [right; exact Hin | exact Hx]. }
    cbn [scan_returns] in H.
    destruct (String.prefix "." (e_name e)) eqn:Hh.
    { apply IH in H. etrans; [exact H |]. apply union_mono_l, Hmono. }
    destruct (bool_decide (is_Some (ret_ !! e_name e))).
    { apply IH in H. etrans; [exact H |]. apply union_mono_l, Hmono. }
    destruct (e_has_return e) eqn:Hr; cbn [negb] in H.
    2:{ apply IH in H. etrans; [exact H |]. apply union_mono_l, Hmono. }
    destruct (load_return (e_reads e)) as [v |]; [| discriminate].
    apply IH in H. etrans; [exact H |]. rewrite dom_insert_L.
    intros x Hx. apply elem_of_union in Hx. destruct Hx as [Hx | Hx].
    + apply elem_of_union in Hx. destruct Hx as [Hx | Hx].
      * apply elem_of_singleton in Hx. subst x. apply elem_of_union_r.
        apply elem_of_committed. exists e. split; [left | auto].
      * apply elem_of_union_l, Hx.
    + apply elem_of_union_r, Hmono, Hx.
Qed.

Lemma get_returns_loop_keys minions_ T gstart scans :
  forall start ret_ tr r,
  get_returns_loop minions_ T gstart scans start ret_ = (tr, Ok r) ->
  dom r ⊆ dom ret_ ∪ committed_names (map s_listing scans).
Proof.
  induction scans as [| s scans IH]; intros start ret_ tr r H; [discriminate |].
  cbn [get_returns_loop] in H. unfold committed_names. cbn [map union_list].
  fold (committed_names (map s_listing scans)).
  destruct (s_listing s) as [es |]; [| discriminate].
  destruct (scan_returns es ret_) as [ret' |] eqn:Hs; [| discriminate].
  apply scan_returns_keys in Hs.
  assert (Hdone : dom ret' ⊆ dom ret_ ∪ (committed es ∪ committed_names (map s_listing scans))).
  { etrans; [exact Hs |]. rewrite (assoc_L (∪)). apply union_subseteq_l. }
  assert (Hgo : forall start', get_returns_loop minions_ T gstart scans start' ret' = (tr, Ok r) ->
                dom r ⊆ dom ret_ ∪ (committed es ∪ committed_names (map s_listing scans))).
  { intros start' H'. apply IH in H'. etrans; [exact H' |].
    rewrite (assoc_L (∪)). apply union_mono_r, Hs. }
  repeat (match type of H with context [if ?b then _ else _] => destruct b end);
    try (inversion H; subst; exact Hdone); eapply Hgo; exact H.
Qed.

Lemma get_returns_dom (self : LocalClient) (w : ReturnsWorld)
    (jid : string) (minions_ : minions_arg) (timeout_ : option Z)
    (tr : list effect) (r : gmap string value) :
  get_returns self w jid minions_ timeout_ = (tr, Ok r) ->
  dom r ⊆ committed_names (map s_listing (rw_scans w)).
Proof.
  intros H. unfold get_returns in H. destruct (py_int jid) as [n |]; [| discriminate].
  destruct (n =? 0); [inversion H; subst; rewrite dom_empty_L; apply empty_subseteq |].
  destruct (negb (rw_isdir w));
    [inversion H; subst; rewrite dom_empty_L; apply empty_subseteq |].
  apply get_returns_loop_keys in H. rewrite dom_empty_L, union_empty_l_L in H. exact H.
Qed.

Lemma committed_names_visible listings id :
  id ∈ committed_names listings -> String.prefix "." id = false.
Proof.
  intros Hid. unfold committed_names in Hid. apply elem_of_union_list in Hid.
  destruct Hid as (X & HX & Hid). apply list_elem_of_In, in_map_iff in HX.
  destruct HX as (l & <- & _). destruct l as [es |]; [| inversion Hid].
  apply elem_of_committed in Hid. destruct Hid as (e & _ & <- & Hh & _). exact Hh.
Qed.

(** X14: every key of the mapping that [get_returns] hands back is the
    name of a directory entry that some pass listed with a [return.p] in it;
    a hidden name, one that starts with a dot, is never a key. *)
Theorem get_returns_keys_are_committed (self : LocalClient) (w : ReturnsWorld)
    (jid : string) (minions_ : minions_arg) (timeout_ : option Z)
    (tr : list effect) (r : gmap string value) :
  get_returns self w jid minions_ timeout_ = (tr, Ok r) ->
  dom r ⊆ committed_names (map s_listing (rw_scans w))
  /\ forall id, id ∈ dom r -> String.prefix "." id = false.
Proof.
  intros H. pose proof (get_returns_dom _ _ _ _ _ _ _ H) as Hd.
  split; [exact Hd |]. intros id Hid.
  apply (committed_names_visible (map s_listing (rw_scans w))), Hd, Hid.
Qed.

Lemma get_returns_keys_are_committed_witness :
  get_returns client0 (cw_returns web1_answers) "3" (MList ["web1"]) None
    = ([], Ok {[ "web1" := VBool true ]})
  /\ forall id, id ∈ dom ({[ "web1" := VBool true ]} : gmap string value) ->
       String.prefix "." id = false.
Proof.
  assert (H : get_returns client0 (cw_returns web1_answers) "3" (MList ["web1"]) None
              = ([], Ok {[ "web1" := VBool true ]})) by (vm_compute; reflexivity).
  split; [exact H |].
  exact (proj2 (get_returns_keys_are_committed _ _ _ _ _ _ _ H)).
Defined.

Lemma load_full_ret reads has_out out :
  r_ret <$> load_full reads has_out out = load_return reads.
Proof.
  induction reads as [| [| v] reads IH]; [reflexivity | exact IH | reflexivity].
Qed.

Lemma scan_full_returns_ret es :
  forall retf,
  rets <$> scan_full_returns es retf = scan_returns es (rets retf).
Proof.
  induction es as [| e es IH]; intros retf; [reflexivity |].
  cbn [scan_full_returns scan_returns].
  destruct (String.prefix "." (e_name e)); [apply IH |].
  assert (Hb : bool_decide (is_Some (rets retf !! e_name e))
               = bool_decide (is_Some (retf !! e_name e))).
  { apply bool_decide_ext. unfold rets. rewrite lookup_fmap. apply fmap_is_Some. }
  rewrite Hb. destruct (bool_decide (is_Some (retf !! e_name e))); [apply IH |].
  destruct (negb (e_has_return e)); [apply IH |].
  rewrite <- load_full_ret with (has_out := e_has_out e) (out := e_out e).
  destruct (load_full (e_reads e) (e_has_out e) (e_out e)) as [r |]; [| reflexivity].
  cbn [fmap option_fmap option_map]. rewrite IH. unfold rets. rewrite fmap_insert.
  reflexivity.
Qed.

Lemma get_full_returns_loop_ret minions_ T gstart scans :
  forall start retf,
  get_returns_loop minions_ T gstart scans start (rets retf)
  = (fst (get_full_returns_loop minions_ T gstart scans start retf),
     map_outcome rets (snd (get_full_returns_loop minions_ T gstart scans start retf))).
Proof.
  induction scans as [| s scans IH]; intros start retf; [reflexivity |].
  cbn [get_returns_loop get_full_returns_loop].
  destruct (s_listing s) as [es |]; [| reflexivity].
  rewrite <- scan_full_returns_ret.
  destruct (scan_full_returns es retf) as [retf' |]; [| reflexivity].
  cbn [fmap option_fmap option_map].
  assert (He : bool_decide (rets retf' = ∅) = bool_decide (retf' = ∅))
    by (apply bool_decide_ext, fmap_empty_iff).
  assert (Hd : dom (rets retf') = dom retf') by apply dom_fmap_L.
  rewrite He, Hd.
  repeat (match goal with |- context [if ?b then _ else _] => destruct b end);
    try reflexivity; apply IH.
Qed.

(** X15: [get_full_returns] refines [get_returns]: for a jid that reads as
    a non-zero integer the two watch the directory in step, and the mapping
    of [get_returns] is that of [get_full_returns] with every entry reduced
    to its ['ret']. *)
Theorem get_returns_is_ret_of_full (self : LocalClient) (w : ReturnsWorld)
    (jid : string) (n : Z) (minions_ : minions_arg) (timeout_ : option Z) :
  py_int jid = Some n ->
  n <> 0 ->
  get_returns self w jid minions_ timeout_
  = (fst (get_full_returns self w jid minions_ timeout_),
     map_outcome rets (snd (get_full_returns self w jid minions_ timeout_))).
Proof.
  intros Hj Hn. unfold get_returns, get_full_returns. rewrite Hj.
  destruct (Z.eqb_spec n 0) as [-> | _]; [contradiction |].
  assert (He : rets ∅ = ∅) by apply fmap_empty.
  destruct (negb (rw_isdir w)).
  - cbn. rewrite He. reflexivity.
  - rewrite <- get_full_returns_loop_ret, He. reflexivity.
Qed.

Lemma get_returns_is_ret_of_full_witness :
  py_int "3" = Some 3 /\ 3 <> 0 /\
  get_returns client0 (cw_returns web1_answers) "3" (MList ["web1"]) None
  = (fst (get_full_returns client0 (cw_returns web1_answers) "3" (MList ["web1"]) None),
     map_outcome rets
       (snd (get_full_returns client0 (cw_returns web1_answers) "3" (MList ["web1"]) None))).
Proof.
  split; [reflexivity | split; [lia |]].
  apply (get_returns_is_ret_of_full client0 (cw_returns web1_answers) "3" 3
           (MList ["web1"]) None); [reflexivity | lia].
Defined.

(** X16: before the first reply, the clock of [get_returns] has not
    started: whatever the time, a pass that finds no return leaves the loop
    only through the global timeout, counted from the entry of the call,
    and only when no write tag holds it back; the result is then empty. *)
Theorem no_reply_waits_for_global_timeout (minions_ : minions_arg) (T gstart : Z)
    (s : scan) (es : list dir_entry) (scans : list scan) :
  s_listing s = Some es ->
  scan_returns es ∅ = Some ∅ ->
  m_len minions_ <> 0%nat ->
  s_now s <= sentinel + T ->
  get_returns_loop minions_ T gstart (s :: scans) sentinel ∅
  = if s_wtag s && negb (s_now_guard s >? sentinel + T + 1)
    then get_returns_loop minions_ T gstart scans sentinel ∅
    else if s_now_global s >? gstart + T then ret ∅
    else get_returns_loop minions_ T gstart scans sentinel ∅.
Proof.
  intros Hl Hs Hm Hn. cbn [get_returns_loop]. rewrite Hl, Hs.
  rewrite bool_decide_eq_true_2 by reflexivity. cbn [negb andb].
  destruct (s_wtag s && negb (s_now_guard s >? sentinel + T + 1)); [reflexivity |].
  assert (Ha : all_returned (dom (∅ : gmap string value)) (m_ids minions_)
                 (m_len minions_) = false).
  { unfold all_returned. apply bool_decide_eq_false.
    rewrite dom_empty_L, intersection_empty_l_L, size_empty. lia. }
  rewrite Ha.
  assert (Hg : (s_now s >? sentinel + T) = false)
    by (rewrite Z.gtb_ltb; apply Z.ltb_ge; lia).
  rewrite Hg, andb_true_r. reflexivity.
Qed.

Lemma no_reply_waits_for_global_timeout_witness :
  let s := {| s_listing := Some []; s_now_start := 0; s_wtag := false;
              s_now_guard := 0; s_now := 100; s_now_global := 100 |} in
  s_listing s = Some [] /\ scan_returns [] ∅ = Some ∅ /\
  m_len (MList ["a"]) <> 0%nat /\ s_now s <= sentinel + 5 /\
  get_returns_loop (MList ["a"]) 5 0 [s] sentinel ∅ = ret ∅.
Proof.
  intros s.
  assert (H3 : m_len (MList ["a"]) <> 0%nat) by discriminate.
  assert (H4 : s_now s <= sentinel + 5) by (vm_compute; discriminate).
  split; [reflexivity | split; [reflexivity | split; [exact H3 | split; [exact H4 |]]]].
  rewrite (no_reply_waits_for_global_timeout (MList ["a"]) 5 0 s [] [] eq_refl eq_refl H3 H4).
  reflexivity.
Defined.

(** ** [get_cli_static_event_returns] *)

Lemma static_loop_result verbose tgt_type start T mns ticks :
  forall fnd ret_ tr r,
  static_loop verbose tgt_type start T mns ticks fnd ret_ = (tr, Ok r) ->
  dom ret_ = fnd ->
  dom r ⊆ fnd ∪ list_to_set (reply_ids ticks)
  /\ (mns ⊆ dom r
      \/ exists t, t ∈ ticks /\ t_event t = None /\ t_now t > start + T
           /\ (t_wtag t = true -> t_now_guard t > start + T + 1)).
Proof.
  induction ticks as [| t ticks IH]; intros fnd ret_ tr r H Hd; [discriminate |].
  cbn [static_loop] in H. unfold reply_ids. cbn [omap list_omap].
  destruct (t_event t) as [[ids | id rv o] |] eqn:He; [discriminate | |];
    fold (reply_ids ticks).
  - assert (Hd' : dom (<[id := Reply rv o]> ret_) = {[id]} ∪ fnd)
      by (rewrite dom_insert_L, Hd; reflexivity).
    cbn [list_to_set]. rewrite (assoc_L (∪)), (comm_L (∪) fnd {[id]}).
    destruct (all_returned ({[id]} ∪ fnd) mns (size mns)) eqn:Ha.
    + inversion H; subst. rewrite Hd'. split; [apply union_subseteq_l |].
      left. apply all_returned_iff, Ha.
    + destruct (IH _ _ _ _ H Hd') as [Hs Hw]. split; [exact Hs |].
      destruct Hw as [Hw | (t' & Hin & Ht)]; [left; exact Hw |].
      right. exists t'. split; [right; exact Hin | exact Ht].
  - destruct (all_returned fnd mns (size mns)) eqn:Ha.
    { inversion H; subst. split; [apply union_subseteq_l |].
      left. apply all_returned_iff, Ha. }
    destruct (t_wtag t && negb (t_now_guard t >? start + T + 1)) eqn:Hw.
    { destruct (IH _ _ _ _ H Hd) as [Hs Hx]. split; [exact Hs |].
      destruct Hx as [Hx | (t' & Hin & Ht)]; [left; exact Hx |].
      right. exists t'. split; [right; exact Hin | exact Ht]. }
    destruct (t_now t >? start + T) eqn:Hgt.
    + apply bind_inv in H. destruct H as (tr1 & u & tr2 & _ & Hr & _).
      inversion Hr; subst. split; [apply union_subseteq_l |].
      right. exists t. split; [left |]. split; [exact He |].
      split; [apply Z.gtb_lt in Hgt; lia |].
      intros Hwt. rewrite Hwt in Hw. cbn [andb] in Hw.
      apply negb_false_iff, Z.gtb_lt in Hw. lia.
    + destruct (IH _ _ _ _ H Hd) as [Hs Hx]. split; [exact Hs |].
      destruct Hx as [Hx | (t' & Hin & Ht)]; [left; exact Hx |].
      right. exists t'. split; [right; exact Hin | exact Ht].
Qed.

(** X17: the mapping that [get_cli_static_event_returns] hands back holds
    only ids whose return the event bus delivered; and when the job
    directory exists it hands it back either with every expected id in it,
    or after a wait elapsed past [start + T] with no write tag within its
    grace. *)
Theorem static_returns_when_done_or_late (self : LocalClient) (w : EventWorld)
    (jid : string) (minions_ : minions_arg) (timeout_ : option Z)
    (tgt : target) (tgt_type : string) (verbose : bool)
    (tr : list effect) (r : gmap string reply) :
  get_cli_static_event_returns self w jid minions_ timeout_ tgt tgt_type verbose
    = (tr, Ok r) ->
  let T := if_none timeout_ (o_timeout (opts self)) in
  dom r ⊆ list_to_set (reply_ids (ew_ticks w))
  /\ (ew_isdir w = true ->
      m_ids minions_ ⊆ dom r
      \/ exists t, t ∈ ew_ticks w /\ t_event t = None /\ t_now t > ew_now w + T
           /\ (t_wtag t = true -> t_now_guard t > ew_now w + T + 1)).
Proof.
  intros H T. unfold get_cli_static_event_returns in H.
  destruct (print_header_eq verbose jid) as (trh & Hh & _). rewrite Hh, bind_ok in H.
  cbn [fst snd] in H. destruct (ew_isdir w); cbn [negb] in H.
  - destruct (static_loop _ _ _ _ _ _ _ _) as [tr1 o] eqn:Hl. cbn [fst snd] in H.
    inversion H; subst. apply static_loop_result in Hl; [| apply dom_empty_L].
    rewrite union_empty_l_L in Hl. destruct Hl as [Hs Hw].
    split; [exact Hs | intros _; exact Hw].
  - cbn [ret fst snd] in H. inversion H; subst. rewrite dom_empty_L.
    split; [apply empty_subseteq | discriminate].
Qed.

Lemma static_returns_when_done_or_late_witness :
  get_cli_static_event_returns client0 (sw_events repeated_return) "1"
    (MList ["a"; "b"]) None (TStr "*") "glob" false
  = ([], Ok {[ "a" := Reply (VInt 1) None; "b" := Reply (VInt 3) None ]})
  /\ dom ({[ "a" := Reply (VInt 1) None; "b" := Reply (VInt 3) None ]} : gmap string reply)
       ⊆ list_to_set (reply_ids (ew_ticks (sw_events repeated_return))).
Proof.
  assert (H : get_cli_static_event_returns client0 (sw_events repeated_return) "1"
                (MList ["a"; "b"]) None (TStr "*") "glob" false
              = ([], Ok {[ "a" := Reply (VInt 1) None; "b" := Reply (VInt 3) None ]}))
    by (vm_compute; reflexivity).
  split; [exact H |].
  exact (proj1 (static_returns_when_done_or_late _ _ _ _ _ _ _ _ _ _ H)).
Defined.

(** ** [cmd] end to end *)

Lemma cmd_inv self w tgt fn arg timeout_ expr_form ret_ kwarg kwargs tr r :
  cmd self w tgt fn arg timeout_ expr_form ret_ kwarg kwargs = (tr, Ok r) ->
  r = ∅
  \/ exists tr0 tr1 jid m,
       tr = tr0 ++ tr1
       /\ get_returns self (cw_returns w) jid (MList m)
            (Some (or_default timeout_ (o_timeout (opts self)))) = (tr1, Ok r).
Proof.
  unfold cmd. intros H.
  apply bind_inv in H. destruct H as (tr0 & pd & tr1 & _ & Hk & ->).
  destruct (negb (dict_truthy pd)); [inversion Hk; subst; left; reflexivity |].
  apply bind_inv in Hk. destruct Hk as (trj & jid & tr2 & Hj & Hk & ->).
  unfold get_jid in Hj. destruct (pd_jid pd); inversion Hj; subst; clear Hj.
  apply bind_inv in Hk. destruct Hk as (trm & m & tr3 & Hm & Hk & ->).
  unfold get_minions in Hm. destruct (pd_minions pd); inversion Hm; subst; clear Hm.
  right. exists tr0, tr3, jid, l. split; [reflexivity | exact Hk].
Qed.

(** X18: whatever the master answers, every key of the mapping that [cmd]
    returns is the name of a directory entry that was listed with a
    [return.p] in it, and never a hidden name: [cmd] surfaces returns that
    were committed to the job directory and nothing else. *)
Theorem cmd_keys_are_committed (self : LocalClient) (w : CmdWorld)
    (tgt : target) (fn : string) (arg : list value) (timeout_ : option Z)
    (expr_form ret_ : string) (kwarg : option (list (string * value)))
    (kwargs : list (string * value)) (tr : list effect) (r : gmap string value) :
  cmd self w tgt fn arg timeout_ expr_form ret_ kwarg kwargs = (tr, Ok r) ->
  dom r ⊆ committed_names (map s_listing (rw_scans (cw_returns w)))
  /\ forall id, id ∈ dom r -> String.prefix "." id = false.
Proof.
  intros H. apply cmd_inv in H. destruct H as [-> | (tr0 & tr1 & jid & m & _ & H)].
  - rewrite dom_empty_L. split; [apply empty_subseteq |]. intros id Hid. inversion Hid.
  - apply get_returns_dom in H. split; [exact H |]. intros id Hid.
    apply (committed_names_visible (map s_listing (rw_scans (cw_returns w)))), H, Hid.
Qed.

Lemma cmd_keys_are_committed_witness :
  cmd client0 web1_answers (TStr "web1") "test.ping" [] None "glob" "" None []
    = ([], Ok {[ "web1" := VBool true ]})
  /\ dom ({[ "web1" := VBool true ]} : gmap string value)
       ⊆ committed_names (map s_listing (rw_scans (cw_returns web1_answers))).
Proof.
  assert (H : cmd client0 web1_answers (TStr "web1") "test.ping" [] None "glob" ""
                None []
              = ([], Ok {[ "web1" := VBool true ]})) by (vm_compute; reflexivity).
  split; [exact H |].
  exact (proj1 (cmd_keys_are_committed _ _ _ _ _ _ _ _ _ _ _ _ H)).
Defined.

(** ** A probe that fails *)

(** X19: the liveness probe is not guarded: when the wait has elapsed past
    the timeout and [gather_job_info] raises, say because the master answers
    the probe's publish with an empty reply, the gatherer ends with that
    exception instead of treating the agents as not running. *)
Theorem probe_exception_ends_the_gatherer (self : LocalClient) (verbose : bool)
    (jid : string) (tgt : target) (tgt_type : string) (kwargs : list (string * value))
    (start inc_timeout : Z) (st : loop_state) (t : tick) (ticks : list tick) (e : exn) :
  t_event t = None ->
  ~ minions st ⊆ found st ->
  t_wtag t = false ->
  t_now t > start + timeout st ->
  snd (gather_job_info self (t_probe t) jid tgt tgt_type kwargs) = Raise e ->
  snd (event_loop self verbose jid tgt tgt_type kwargs start inc_timeout (t :: ticks) st)
    = Raise e.
Proof.
  intros He Hn Hw Hgt Hp. cbn [event_loop]. rewrite snd_bind. unfold event_step.
  assert (Ha : all_returned (found st) (minions st) (size (minions st)) = false).
  { destruct (all_returned (found st) (minions st) (size (minions st))) eqn:Ha;
      [| reflexivity]. apply all_returned_iff in Ha. contradiction. }
  assert (Hg : (t_now t >? start + timeout st) = true)
    by (rewrite Z.gtb_ltb; apply Z.ltb_lt; lia).
  rewrite He, Ha, Hw, Hg. cbn [andb]. rewrite snd_bind, Hp. reflexivity.
Qed.

Lemma probe_exception_ends_the_gatherer_witness :
  let st := {| found := ∅; minions := {[ "a" ]}; timeout := 5 |} in
  let probe := cmd_world empty_reply in
  let t := idle false 6 probe in
  t_event t = None /\ ~ minions st ⊆ found st /\ t_wtag t = false /\
  t_now t > 0 + timeout st /\
  snd (gather_job_info client0 (t_probe t) "1" (TStr "*") "glob" [])
    = Raise (EauthAuthenticationError auth_err) /\
  snd (event_loop client0 false "1" (TStr "*") "glob" [] 0 5 [t] st)
    = Raise (EauthAuthenticationError auth_err).
Proof.
  intros st probe t.
  assert (H2 : ~ minions st ⊆ found st).
  { subst st. cbn [minions found]. intros Hs. specialize (Hs "a").
    rewrite elem_of_singleton in Hs. specialize (Hs eq_refl).
    revert Hs. apply not_elem_of_empty. }
  assert (H4 : t_now t > 0 + timeout st) by reflexivity.
  assert (H5 : snd (gather_job_info client0 (t_probe t) "1" (TStr "*") "glob" [])
               = Raise (EauthAuthenticationError auth_err)) by (vm_compute; reflexivity).
  split; [reflexivity | split; [exact H2 | split; [reflexivity | split; [exact H4 |]]]].
  split; [exact H5 |].
  exact (probe_exception_ends_the_gatherer client0 false "1" (TStr "*") "glob" [] 0 5
           st t [] _ eq_refl H2 eq_refl H4 H5).
Defined.

(** ** [get_returns] comes to an end *)

Lemma load_return_ends reads : Exists decodes reads -> is_Some (load_return reads).
Proof.
  induction 1 as [r reads Hd | r reads _ IH].
  - destruct r; [destruct Hd | eauto].
  - destruct r; [exact IH | eauto].
Qed.

Lemma scan_returns_ends es :
  Forall (fun e => Exists decodes (e_reads e)) es ->
  forall ret_, is_Some (scan_returns es ret_).
Proof.
  induction 1 as [| e es He _ IH]; intros ret_; [eauto |].
  cbn [scan_returns].
  destruct (String.prefix "." (e_name e)); [apply IH |].
  destruct (bool_decide (is_Some (ret_ !! e_name e))); [apply IH |].
  destruct (negb (e_has_return e)); [apply IH |].
  destruct (load_return_ends _ He) as [v ->]. apply IH.
Qed.

Lemma started_clock (bound start now_start : Z) (ret_ ret' : gmap string value) :
  now_start <= bound ->
  (ret_ = ∅ /\ start = sentinel) \/ start <= bound ->
  let start' := if negb (bool_decide (ret' = ∅)) && (start =? sentinel)
                then now_start else start in
  (ret' = ∅ /\ start' = sentinel) \/ start' <= bound.
Proof.
  intros Hb Hinv start'. subst start'.
  destruct (decide (ret' = ∅)) as [He | Hne].
  - rewrite bool_decide_eq_true_2 by exact He. cbn [negb andb].
    destruct Hinv as [[_ Hs] | Hs]; [left; auto | right; exact Hs].
  - rewrite bool_decide_eq_false_2 by exact Hne. cbn [negb andb].
    destruct (Z.eqb_spec start sentinel) as [Hs | Hs]; [right; exact Hb |].
    destruct Hinv as [[_ Hs'] | Hs']; [contradiction | right; exact Hs'].
Qed.

Lemma get_returns_loop_ends minions_ T gstart bound s post pre :
  forall start ret_,
  Forall readable (pre ++ [s]) ->
  start_bound bound (pre ++ [s]) ->
  s_wtag s = false ->
  s_now s > bound + T ->
  s_now_global s > gstart + T ->
  (ret_ = ∅ /\ start = sentinel) \/ start <= bound ->
  exists r, snd (get_returns_loop minions_ T gstart (pre ++ s :: post) start ret_) = Ok r.
Proof.
  induction pre as [| p pre IH]; intros start ret_ Hr Hb Hw Hn Hg Hinv.
  - cbn [app] in *. apply Forall_cons in Hr. destruct Hr as [Hr _].
    apply Forall_cons in Hb. destruct Hb as [Hb _].
    cbn [get_returns_loop]. unfold readable in Hr.
    destruct (s_listing s) as [es |]; [| destruct Hr].
    destruct (scan_returns_ends es Hr ret_) as [ret' ->].
    pose proof (started_clock bound start (s_now_start s) ret_ ret' Hb Hinv) as Hinv'.
    cbn zeta in Hinv'. rewrite Hw. cbn [andb].
    destruct (all_returned (dom ret') (m_ids minions_) (m_len minions_)); [eauto |].
    destruct Hinv' as [[He Hs] | Hs].
    + rewrite Hs, He. destruct (s_now s >? sentinel + T); [eauto |].
      rewrite bool_decide_eq_true_2 by reflexivity. rewrite andb_true_r.
      assert (Hgg : (s_now_global s >? gstart + T) = true)
        by (rewrite Z.gtb_ltb; apply Z.ltb_lt; lia).
      rewrite Hgg. eauto.
    + match goal with |- context [s_now s >? ?x + T] =>
        assert (Hgt : (s_now s >? x + T) = true)
          by (rewrite Z.gtb_ltb; apply Z.ltb_lt; lia); rewrite Hgt end.
      eauto.
  - cbn [app] in *. apply Forall_cons in Hr. destruct Hr as [Hp Hr].
    apply Forall_cons in Hb. destruct Hb as [Hpb Hb].
    cbn [get_returns_loop]. unfold readable in Hp.
    destruct (s_listing p) as [es |]; [| destruct Hp].
    destruct (scan_returns_ends es Hp ret_) as [ret' ->].
    pose proof (started_clock bound start (s_now_start p) ret_ ret' Hpb Hinv) as Hinv'.
    cbn zeta in Hinv'.
    repeat (match goal with |- context [if ?b then ?x else ?y] =>
              match x with context [get_returns_loop] => destruct b
                      | _ => match y with context [get_returns_loop] => destruct b end
              end end);
      try (eexists; reflexivity); apply IH; assumption.
Qed.

(** X20: [get_returns] comes to an end.  Let the job directory exist and
    be listable, and every [return.p] come to decode; then the call returns
    at the latest on the first pass that finds no write tag and reads a
    clock that is past the global timeout and more than [T] past every
    reading that could have started the clock of the first reply. *)
Theorem get_returns_ends_at_the_deadline (self : LocalClient) (w : ReturnsWorld)
    (jid : string) (n : Z) (minions_ : minions_arg) (timeout_ : option Z)
    (bound : Z) (pre : list scan) (s : scan) (post : list scan) :
  py_int jid = Some n ->
  rw_scans w = pre ++ s :: post ->
  Forall readable (pre ++ [s]) ->
  start_bound bound (pre ++ [s]) ->
  s_wtag s = false ->
  s_now s > bound + if_none timeout_ (o_timeout (opts self)) ->
  s_now_global s > rw_now w + if_none timeout_ (o_timeout (opts self)) ->
  exists r, snd (get_returns self w jid minions_ timeout_) = Ok r.
Proof.
  intros Hj Hs Hr Hb Hw Hn Hg. unfold get_returns. rewrite Hj, Hs.
  destruct (n =? 0); [eauto |]. destruct (negb (rw_isdir w)); [eauto |].
  apply (get_returns_loop_ends minions_ _ (rw_now w) bound s post pre); auto.
Qed.

Lemma get_returns_ends_at_the_deadline_witness :
  let s := {| s_listing := Some [entry_of "a" [ReadErr; ReadVal (VInt 1)]];
              s_now_start := 1; s_wtag := false; s_now_guard := 9; s_now := 9;
              s_now_global := 9 |} in
  let w := {| rw_now := 0; rw_isdir := true; rw_scans := [s] |} in
  py_int "7" = Some 7 /\ rw_scans w = [] ++ s :: [] /\
  Forall readable ([] ++ [s]) /\ start_bound 1 ([] ++ [s]) /\ s_wtag s = false /\
  s_now s > 1 + if_none (Some 5) (o_timeout (opts client0)) /\
  s_now_global s > rw_now w + if_none (Some 5) (o_timeout (opts client0)) /\
  exists r, snd (get_returns client0 w "7" (MList ["a"; "b"]) (Some 5)) = Ok r.
Proof.
  intros s w.
  assert (H3 : Forall readable ([] ++ [s])).
  { constructor; [| constructor]. unfold readable. cbn.
    constructor; [| constructor]. apply Exists_cons_tl, Exists_cons_hd. exact I. }
  assert (H4 : start_bound 1 ([] ++ [s])).
  { constructor; [| constructor]. cbn. lia. }
  assert (H6 : s_now s > 1 + if_none (Some 5) (o_timeout (opts client0))) by reflexivity.
  assert (H7 : s_now_global s > rw_now w + if_none (Some 5) (o_timeout (opts client0)))
    by reflexivity.
  split; [reflexivity | split; [reflexivity | split; [exact H3 | split; [exact H4 |]]]].
  split; [reflexivity | split; [exact H6 | split; [exact H7 |]]].
  exact (get_returns_ends_at_the_deadline client0 w "7" 7 (MList ["a"; "b"]) (Some 5) 1
           [] s [] eq_refl eq_refl H3 H4 eq_refl H6 H7).
Defined.

(** ** What [get_cli_returns] yields *)

Lemma cli_scan_committed es :
  forall found_ id, id ∈ ids_of (fst (cli_scan es found_)) -> id ∈ committed es.
Proof.
  induction es as [| e es IH]; intros found_ id Hid; [inversion Hid |].
  assert (Hmono : committed es ⊆ committed (e :: es)).
  { intros x Hx. apply elem_of_committed in Hx. destruct Hx as (e' & Hin & Hx).
    apply elem_of_committed. exists e'. split; [right; exact Hin | exact Hx]. }
  cbn [cli_scan] in Hid.
  destruct (String.prefix "." (e_name e)) eqn:Hh; [apply Hmono, (IH _ _ Hid) |].
  destruct (bool_decide (e_name e ∈ found_)); [apply Hmono, (IH _ _ Hid) |].
  destruct (e_has_return e) eqn:Hr; cbn [negb] in Hid; [| apply Hmono, (IH _ _ Hid)].
  destruct (load_entry (e_name e) (e_reads e) (e_has_out e) (e_out e) 0)
    as [[k m] |] eqn:Hl; [| inversion Hid].
  destruct (load_entry_recorded _ _ _ _ _ _ _ Hl) as [_ [r ->]].
  unfold emit in Hid. rewrite bind_ok in Hid. cbn [fst app] in Hid.
  rewrite ids_of_yield_cons, dom_singleton_L, elements_singleton in Hid.
  apply elem_of_cons in Hid. destruct Hid as [-> | Hid].
  - apply elem_of_committed. exists e. split; [left | auto].
  - apply Hmono, (IH _ _ Hid).
Qed.

Lemma cli_loop_committed self verbose jid tgt tgt_type kwargs minions_ start inc passes :
  forall found_ T id,
  id ∈ ids_of (fst (cli_loop self verbose jid tgt tgt_type kwargs minions_ start inc
                      passes found_ T)) ->
  id ∈ committed_names (map cp_listing passes).
Proof.
  induction passes as [| p passes IH]; intros found_ T id Hid; [inversion Hid |].
  cbn [cli_loop] in Hid. unfold committed_names. cbn [map union_list].
  fold (committed_names (map cp_listing passes)).
  destruct (cp_listing p) as [es |]; [| inversion Hid].
  rewrite fst_bind, ids_of_app in Hid. apply elem_of_app in Hid.
  destruct Hid as [Hid | Hid]; [apply elem_of_union_l, (cli_scan_committed _ _ _ Hid) |].
  apply elem_of_union_r.
  destruct (snd (cli_scan es found_)) as [found' | e |]; [| inversion Hid | inversion Hid].
  destruct (cp_wtag p && negb (cp_now_guard p >? start + T + 1)); [apply (IH _ _ _ Hid) |].
  destruct (all_returned found' (m_ids minions_) (m_len minions_)); [inversion Hid |].
  destruct (cp_now p >? start + T); [| apply (IH _ _ _ Hid)].
  rewrite fst_bind, ids_of_app, ids_of_gather in Hid. cbn [app] in Hid.
  destruct (snd (gather_job_info self (cp_probe p) jid tgt tgt_type kwargs))
    as [jinfo | e |]; [| inversion Hid | inversion Hid].
  rewrite fst_bind, ids_of_app, ids_of_cond_print in Hid. cbn [app] in Hid.
  destruct (cond_print verbose
              (map (fun id_ => "Execution is still running on " +:+ id_)
                 (running jinfo))) as [tr1 [Hc _]].
  rewrite Hc in Hid. cbn [snd] in Hid.
  destruct (negb (bool_decide (running jinfo = []))); [apply (IH _ _ _ Hid) |].
  rewrite andb_false_r in Hid. inversion Hid.
Qed.

(** X21: [get_cli_returns] yields a mapping only for a directory entry
    that a pass listed with a [return.p] in it: no hidden name, and no name
    whose return is not yet committed, is ever surfaced. *)
Theorem get_cli_returns_yields_committed (self : LocalClient) (w : CliWorld)
    (jid : string) (minions_ : minions_arg) (timeout_ : option Z)
    (tgt : target) (tgt_type : string) (verbose : bool)
    (kwargs : list (string * value)) :
  Forall (fun id => id ∈ committed_names (map cp_listing (cl_passes w))
                    /\ String.prefix "." id = false)
    (ids_of (fst (get_cli_returns self w jid minions_ timeout_ tgt tgt_type
                    verbose kwargs))).
Proof.
  apply Forall_forall. intros id Hid.
  assert (Hc : id ∈ committed_names (map cp_listing (cl_passes w))).
  { unfold get_cli_returns in Hid.
    destruct (print_header_eq verbose jid) as (trh & Hh & Hq).
    rewrite Hh, bind_ok in Hid. cbn [fst snd] in Hid.
    rewrite ids_of_app, (ids_of_quiet _ Hq) in Hid. cbn [app] in Hid.
    destruct (unknown_job_yield (cl_isdir w)) as (try & Hy & Hi & _).
    rewrite Hy, bind_ok in Hid. cbn [fst snd] in Hid.
    rewrite ids_of_app, Hi in Hid. cbn [app] in Hid.
    apply (cli_loop_committed _ _ _ _ _ _ _ _ _ _ _ _ _ Hid). }
  split; [exact Hc | apply (committed_names_visible _ _ Hc)].
Qed.

(** ** The shape of what the streams yield *)

Lemma event_step_yields self verbose jid tgt tgt_type kwargs start inc st t :
  Forall one_agent
    (yields_of (fst (event_step self verbose jid tgt tgt_type kwargs start inc st t))).
Proof.
  destruct (event_step self verbose jid tgt tgt_type kwargs start inc st t)
    as [tr o] eqn:He. cbn [fst].
  unfold event_step in He. destruct (t_event t) as [[ids | id r o'] |].
  - inversion He; subst. constructor.
  - unfold emit in He. rewrite bind_ok in He.
    destruct (all_returned _ _ _); cbn in He; inversion He; subst;
      (constructor; [exists id, (Reply r o'); reflexivity | constructor]).
  - assert (Hq : yields_of tr = []); [| rewrite Hq; constructor].
    destruct (all_returned _ _ _); [inversion He; reflexivity |].
    destruct (t_wtag t && negb (t_now_guard t >? start + timeout st + 1));
      [inversion He; reflexivity |].
    destruct (t_now t >? start + timeout st); [| inversion He; reflexivity].
    apply (f_equal fst) in He. cbn [fst] in He. rewrite <- He, fst_bind, yields_of_app.
    destruct (gather_job_info_effects self (t_probe t) jid tgt tgt_type kwargs)
      as [q [-> Hqq]].
    cbn [yields_of omap list_omap]. fold (yields_of q). rewrite (quiet_yields _ Hqq).
    cbn [app].
    destruct (snd (gather_job_info self (t_probe t) jid tgt tgt_type kwargs))
      as [jinfo | e |]; [| reflexivity | reflexivity].
    apply quiet_yields. apply bind_quiet.
    { destruct verbose; [apply print_all_quiet | constructor]. }
    intros _. destruct (negb (bool_decide (running jinfo = []))); [constructor |].
    apply bind_quiet; [| intros; constructor].
    match goal with |- context [if ?b then _ else _] => destruct b end;
      [apply print_all_quiet | constructor].
Qed.

Lemma event_loop_yields self verbose jid tgt tgt_type kwargs start inc ticks :
  forall st,
  Forall one_agent
    (yields_of (fst (event_loop self verbose jid tgt tgt_type kwargs start inc ticks st))).
Proof.
  induction ticks as [| t ticks IH]; intros st; [constructor |].
  cbn [event_loop]. rewrite fst_bind, yields_of_app. apply Forall_app_2.
  - apply event_step_yields.
  - destruct (snd (event_step self verbose jid tgt tgt_type kwargs start inc st t))
      as [[st' | why st'] | e |]; [apply IH | constructor | constructor | constructor].
Qed.

Lemma skip_empty_one_agent tr :
  Forall (fun m => m = ∅ \/ one_agent m) (yields_of tr) ->
  Forall one_agent (yields_of (List.filter nonempty_yield tr)).
Proof.
  induction tr as [| e tr IH]; intros H; [constructor |].
  destruct e as [m | l | j g k]; cbn [List.filter nonempty_yield];
    [| apply IH, H | apply IH, H].
  apply Forall_cons in H. destruct H as [Hm H].
  destruct (decide (m = ∅)) as [-> | Hne].
  - rewrite bool_decide_eq_true_2 by reflexivity. cbn [negb]. apply IH, H.
  - rewrite bool_decide_eq_false_2 by exact Hne. cbn [negb].
    constructor; [destruct Hm; [contradiction | assumption] | apply IH, H].
Qed.

Lemma get_cli_event_returns_yields self w jid minions_ timeout_ tgt tgt_type verbose kwargs :
  Forall (fun m => m = ∅ \/ one_agent m)
    (yields_of (fst (get_cli_event_returns self w jid minions_ timeout_ tgt tgt_type
                       verbose kwargs))).
Proof.
  unfold get_cli_event_returns.
  destruct (print_header_eq verbose jid) as (trh & -> & Hq).
  rewrite bind_ok. cbn [fst]. rewrite yields_of_app, (quiet_yields _ Hq). cbn [app].
  assert (Hl : forall st,
            Forall (fun m => m = ∅ \/ one_agent m)
              (yields_of (fst (event_loop self verbose jid tgt tgt_type kwargs (ew_now w)
                                 (if_none timeout_ (o_timeout (opts self)))
                                 (ew_ticks w) st)))).
  { intros st. eapply Forall_impl; [apply event_loop_yields |].
    intros m Hm. right. exact Hm. }
  destruct (ew_isdir w); cbn [negb].
  - rewrite bind_ret_l. apply Hl.
  - unfold emit. rewrite bind_ok. cbn [fst app yields_of omap list_omap].
    constructor; [left; reflexivity | apply Hl].
Qed.

(** X22: every mapping that [cmd_iter] or [cmd_cli] yields holds exactly
    one agent's entry; the one exception is the single empty mapping they
    yield, and nothing else, when the checked publish data is empty. *)
Theorem streams_yield_one_agent_at_a_time (self : LocalClient) (sw : StreamWorld)
    (tgt : target) (fn : string) (arg : list value) (timeout_ : option Z)
    (expr_form ret_ : string) (verbose : bool)
    (kwarg : option (list (string * value))) (kwargs : list (string * value)) :
  let i := cmd_iter self sw tgt fn arg timeout_ expr_form ret_ kwarg kwargs in
  let c := cmd_cli self sw tgt fn arg timeout_ expr_form ret_ verbose kwarg kwargs in
  (Forall one_agent (yields_of (fst i)) \/ (yields_of (fst i) = [∅] /\ snd i = Ok None))
  /\ (Forall one_agent (yields_of (fst c)) \/ (yields_of (fst c) = [∅] /\ snd c = Ok None)).
Proof.
  intros i c.
  assert (Hgen : forall (gather : string -> minions_arg -> M (reason * loop_state)),
            (forall j m, Forall one_agent (yields_of (fst (gather j m)))) ->
            let b := (let* pub_data :=
                        run_job self (sw_job sw) tgt fn (condition_kwarg arg kwarg)
                          expr_form ret_ timeout_ kwargs in
                      if negb (dict_truthy pub_data) then emit (Yield ∅) ;; ret None
                      else
                        let* jid := get_jid pub_data in
                        let* minions_ := get_minions pub_data in
                        some_result (gather jid minions_)) in
            Forall one_agent (yields_of (fst b))
            \/ (yields_of (fst b) = [∅] /\ snd b = Ok None)).
  { intros gather Hg b. subst b.
    pose proof (run_job_quiet self (sw_job sw) tgt fn (condition_kwarg arg kwarg)
                  expr_form ret_ timeout_ kwargs) as Hq.
    destruct (run_job self (sw_job sw) tgt fn (condition_kwarg arg kwarg) expr_form
                ret_ timeout_ kwargs) as [tr0 [pd | e |]]; cbn [fst] in Hq.
    2,3: left; cbn [bind fst]; rewrite (quiet_yields _ Hq); constructor.
    rewrite bind_ok. cbn [fst snd]. rewrite yields_of_app, (quiet_yields _ Hq). cbn [app].
    destruct (negb (dict_truthy pd)); [right; split; reflexivity |].
    left. unfold get_jid. destruct (pd_jid pd) as [j |]; [| constructor].
    rewrite bind_ret_l. unfold get_minions.
    destruct (pd_minions pd) as [m |]; [| constructor].
    rewrite bind_ret_l. unfold some_result. rewrite fst_bind, yields_of_app.
    apply Forall_app_2; [apply Hg |]. destruct (snd (gather j (MList m))); constructor. }
  split.
  - apply (Hgen (fun j m => skip_empty
                   (get_iter_returns self (sw_events sw) j m
                      (Some (or_default timeout_ (o_timeout (opts self))))
                      tgt expr_form kwargs))).
    intros j m. unfold skip_empty. cbn [fst]. apply skip_empty_one_agent.
    rewrite <- get_cli_event_returns_quietly. apply get_cli_event_returns_yields.
  - apply (Hgen (fun j m => skip_empty
                   (get_cli_event_returns self (sw_events sw) j m
                      (Some (or_default timeout_ (o_timeout (opts self))))
                      tgt expr_form verbose kwargs))).
    intros j m. unfold skip_empty. cbn [fst]. apply skip_empty_one_agent.
    apply get_cli_event_returns_yields.
Qed.

(** ** What the constructor can do *)

(** X23: the options handed to the constructor as [mopts] are never
    used: a client that the constructor builds carries the options of the
    configuration file, [mopts] was falsy, and its key is the one that
    [__read_master_key] read.  What the constructor raises is
    [AttributeError] for a truthy [mopts]; or else an exception of
    [Serial], of [check_parent_dirs] or of [MasterEvent]; or else [KeyError],
    when the user is not root, [SUDO_USER] is unset and the options have no
    ['user']. *)
Theorem constructor_outcomes (h : Host) (c_path : string)
    (mopts : option (gmap string value)) :
  init h c_path mopts <> Pending
  /\ (forall cl, init h c_path mopts = Ok cl ->
        opts cl = client_config h c_path /\ mopts_truthy mopts = false
        /\ read_master_key h (client_config h c_path) (salt_user cl) = Ok (key cl))
  /\ (forall e, init h c_path mopts = Raise e ->
        (e = AttributeError /\ mopts_truthy mopts = true)
        \/ (mopts_truthy mopts = false
            /\ (new_serial h (client_config h c_path) = Some e
                \/ (exists keyfile user, check_parent_dirs h keyfile user = Some e)
                \/ new_event h (o_sock_dir (client_config h c_path)) = Some e
                \/ (e = KeyError /\ sudo_user h = None /\ getuser h <> "root"
                    /\ o_user (client_config h c_path) = None)))).
Proof.
  unfold init. destruct (mopts_truthy mopts).
  { split; [discriminate | split; [discriminate |]].
    intros e H. inversion H; subst. left. auto. }
  set (o := client_config h c_path).
  destruct (new_serial h o) as [e0 |].
  { split; [discriminate | split; [discriminate |]].
    intros e H. inversion H; subst. right. auto. }
  assert (Hu : get_user h o = Raise KeyError
               /\ sudo_user h = None /\ getuser h <> "root" /\ o_user o = None
               \/ exists u, get_user h o = Ok u).
  { unfold get_user. destruct (sudo_user h) as [su |].
    - rewrite bool_decide_eq_true_2 by eauto. rewrite orb_true_r. eauto.
    - rewrite bool_decide_eq_false_2 by (intros [x Hx]; discriminate).
      rewrite orb_false_r.
      destruct (String.eqb_spec (getuser h) "root") as [Hroot | Hroot]; [eauto |].
      destruct (o_user o) as [u |]; [| left; auto].
      right. destruct (String.eqb (getuser h) u); eauto. }
  destruct Hu as [(-> & Hs & Hr & Ho) | [u ->]].
  { split; [discriminate | split; [discriminate |]].
    intros e H. inversion H; subst. right. split; [reflexivity |]. do 3 right. auto. }
  unfold read_master_key.
  destruct (check_parent_dirs h (keyfile_of o (key_user_of o u)) (key_user_of o u))
    as [e1 |] eqn:Hc.
  { split; [discriminate | split; [discriminate |]].
    intros e H. inversion H; subst. right. split; [reflexivity |]. right. left. eauto. }
  assert (Hk : exists k, match read_file h (keyfile_of o (key_user_of o u)) with
                         | Some k => Ok k
                         | None => Ok ""
                         end = Ok k)
    by (destruct (read_file h _); eauto).
  destruct Hk as [k Hk]. rewrite Hk.
  destruct (new_event h (o_sock_dir o)) as [e2 |].
  { split; [discriminate | split; [discriminate |]].
    intros e H. inversion H; subst. right. split; [reflexivity |]. right. right. left.
    reflexivity. }
  split; [discriminate | split; [| discriminate]].
  intros cl H. inversion H; subst. cbn [opts salt_user key].
  split; [reflexivity | split; [reflexivity |]]. rewrite Hc. exact Hk.
Qed.
